(** * DeepEdit guidance transforms (monailabel/deepedit/transforms.py)

    A shallow embedding of the transforms of [transforms.py] and the
    properties stated about them.

    Conventions of the embedding.
    - A numpy array is a shape together with its elements in C order
      ([ndarray]); [x.flatten()] is the element list.
    - Array elements, probabilities read from a record and weights are
      rationals ([Q]): every finite float is one.  Chamfer distances are
      integers ([Z], numpy's int32).  The sampling weights
      [np.exp(..) - 1.0] are real numbers ([R]); arithmetic is exact, so
      rounding, overflow to [inf] and [nan] are outside the model.
    - A Python exception is [None] in an [option]; the comment at each
      [None] names the exception.
    - The random state, scipy's distance transform and the [json] module
      are collaborators of the host environment: the transforms are
      written over an interface ([Collaborators]) and the laws they are
      assumed to obey are named predicates. *)

From Stdlib Require Import ZArith QArith Qreals Reals Lra Lia Ascii DecimalString.
From stdpp Require Import base option list gmap strings.

Close Scope R_scope.
Close Scope Q_scope.
Open Scope nat_scope.

(** ** numpy arrays *)

Record ndarray (A : Type) := NdArray { shape : list nat; data : list A }.
Arguments NdArray {A} shape data.
Arguments shape {A} _.
Arguments data {A} _.

(** number of elements of an array of the given shape *)
Definition size_of (s : list nat) : nat := foldr Nat.mul 1 s.

Definition ndim {A} (a : ndarray A) : nat := length (shape a).

(** the element list has as many entries as the shape asks for *)
Definition wf {A} (a : ndarray A) : Prop :=
  length (data a) = size_of (shape a).

(** [np.zeros(s)] *)
Definition np_zeros (s : list nat) : ndarray Q :=
  NdArray s (replicate (size_of s) 0%Q).

(** [a[i]] for an array of at least one dimension: the i-th block along
    axis 0.  IndexError when [i] is out of range or [a] is 0-dimensional. *)
Definition index0 {A} (a : ndarray A) (i : nat) : option (ndarray A) :=
  match shape a with
  | [] => None
  | n :: s =>
      if decide (i < n)
      then Some (NdArray s (take (size_of s) (drop (i * size_of s) (data a))))
      else None
  end.

(** [a[i] = 0] (the block along axis 0 overwritten with zeros, in place) *)
Definition zero_block (a : ndarray Q) (i : nat) : ndarray Q :=
  let cs := size_of (tail (shape a)) in
  NdArray (shape a)
          (take (i * cs) (data a) ++ replicate cs 0%Q ++ drop ((i + 1) * cs) (data a)).

(** [a[..., 0]]: index 0 along the last axis.  IndexError when the array is
    0-dimensional or its last axis is empty. *)
Definition take_last0 {A} (a : ndarray A) : option (ndarray A) :=
  match reverse (shape a) with
  | [] => None
  | 0 :: _ => None
  | S k :: rs =>
      Some (NdArray (reverse rs)
                    (omap head (reshape (replicate (size_of (reverse rs)) (S k)) (data a))))
  end.

(** [np.unravel_index(i, s)] in C order (the last axis varies fastest) *)
Fixpoint unravel_index (i : nat) (s : list nat) : list nat :=
  match s with
  | [] => []
  | _ :: s' => (i / size_of s') :: unravel_index (i mod size_of s') s'
  end.

(** [np.where(x.flatten() > 0)[0]]: the flat indices of the positive entries *)
Definition Qpositive (q : Q) : bool := (0 <? Qnum q)%Z.
Definition Qnonzero (q : Q) : bool := negb (Qnum q =? 0)%Z.

Fixpoint where_from {A} (f : A → bool) (k : nat) (l : list A) : list nat :=
  match l with
  | [] => []
  | q :: l' => if f q then k :: where_from f (S k) l' else where_from f (S k) l'
  end.
Definition where_positive (l : list Q) : list nat := where_from Qpositive 0 l.

(** [np.sum] of rationals, of reals *)
Definition Qsum (l : list Q) : Q := foldr Qplus 0%Q l.
Definition Rsum (l : list R) : R := foldr Rplus 0%R l.

(** [x.max()]: ValueError on an empty array *)
Definition Qmax (a b : Q) : Q := if Qle_bool a b then b else a.
Definition np_max (l : list Q) : option Q :=
  match l with
  | [] => None
  | q :: l' => Some (foldl Qmax q l')
  end.

(** [x.astype(int)] on one number: truncation toward zero *)
Definition astype_int (q : Q) : Z := Z.quot (Qnum q) (Z.pos (Qden q)).

(** ** Python values held in a data record *)

(** A guidance source of shape (2, N, #dim) as nested lists. *)
Abbreviation nested A := (list (list (list A))).

Definition loc := nat.

Inductive pyval :=
| PBool (b : bool)
| PFloat (q : Q)
| PStr (s : string)
| PList (g : nested Q)
| PArray (a : ndarray Q)
| PDict (l : loc).        (* a reference to a metadata dictionary *)

(** [x.tolist()] of a 3-dimensional array *)
Definition tolist3 {A} (a : ndarray A) : option (nested A) :=
  match shape a with
  | [n; m; k] => Some (reshape (replicate m k) <$> reshape (replicate n (m * k)) (data a))
  | _ => None
  end.

(** [np.asarray(g)] succeeds on nested lists exactly when they are
    rectangular: all rows have one length and all points one length. *)
Definition same_length {A} (l : list (list A)) : bool :=
  match l with
  | [] => true
  | x :: l' => forallb (fun y => length y =? length x) l'
  end.
Definition rectangular {A} (g : nested A) : bool :=
  same_length g && same_length (concat g).

(** a function applied to every number of a guidance source *)
Definition map3 {A B} (f : A → B) (g : nested A) : nested B :=
  (λ row : list (list A), (λ point : list A, f <$> point) <$> row) <$> g.

(** [np.asarray(g).astype(int).tolist()]; ValueError on ragged lists *)
Definition asarray_int (g : nested Q) : option (nested Z) :=
  if rectangular g then Some (map3 astype_int g) else None.

(** ** Collaborators of the host environment *)

Class Collaborators := {
  (** the state of a [numpy.random.RandomState] *)
  rng : Type;
  (** [scipy.ndimage.morphology.distance_transform_cdt], default metric *)
  distance_transform_cdt : ndarray Q → ndarray Z;
  (** [RandomState.choice(a, p=p)]: one element of [a] and the next state,
      or ValueError *)
  R_choice : ∀ A : Type, rng → list A → list R → option (A * rng);
  (** [json.loads] of a guidance source, [json.dumps] of an integer array *)
  json_loads : string → option (nested Q);
  json_dumps : nested Z → string;
}.
Arguments R_choice {_ A} _ _ _.

(** Laws of the collaborators, assumed where a statement names them. *)

(** [choice] returns an element of the list it was given. *)
Definition choice_sound `{Collaborators} : Prop :=
  ∀ (A : Type) (r r' : rng) (a : list A) (p : list R) (x : A),
    R_choice r a p = Some (x, r') → x ∈ a.



(** ** DiscardAddGuidanced *)

Module DiscardAddGuidanced.

Record t := {
  keys : list string;
  number_intensity_ch : nat;
  discard_probability : Q;
  allow_missing_keys : bool;
}.

Section transform.
Context `{Collaborators}.

(** [(image.shape[-3], image.shape[-2], image.shape[-1])]; IndexError when
    the array has fewer than three dimensions *)
Definition last3 (s : list nat) : option (nat * nat * nat) :=
  match reverse s with
  | d :: w :: h :: _ => Some (h, w, d)
  | _ => None
  end.

(** [_apply]; [st] is the state of the global [np.random].  The zero
    array [signal] has shape (1, H, W, D): assigning it to [image[c]]
    needs an image of at least four dimensions and concatenating it
    along axis 0 an image of exactly four (ValueError otherwise). *)
Definition _apply (self : t) (st : rng) (image : ndarray Q)
  : option (ndarray Q * rng) :=
  '(discard, st) ←
    (if Qle_bool 1 (discard_probability self) then Some (true, st)
     else R_choice st [true; false]
            [Q2R (discard_probability self);
             (1 - Q2R (discard_probability self))%R]);
  if discard : bool then
    '(h, w, d) ← last3 (shape image);
    let signal := np_zeros [1; h; w; d] in
    if decide (head (shape image) = Some (number_intensity_ch self + 2)) then
      if decide (4 ≤ ndim image) then
        Some (zero_block (zero_block image (number_intensity_ch self))
                         (number_intensity_ch self + 1), st)
      else None
    else
      if decide (ndim image = 4) then
        Some (NdArray (S (S (default 0 (head (shape image)))) :: tail (shape image))
                      (data image ++ data signal ++ data signal), st)
      else None
  else Some (image, st).

(** [__call__]: [key_iterator] yields the keys present in the record and
    raises KeyError on a missing one unless [allow_missing_keys]. *)
Fixpoint call_keys (self : t) (ks : list string) (st : rng)
    (d : gmap string pyval) : option (gmap string pyval * rng) :=
  match ks with
  | [] => Some (d, st)
  | key :: ks' =>
      match d !! key with
      | None => if allow_missing_keys self then call_keys self ks' st d else None
      | Some v =>
          if decide (key = "image"%string) then
            match v with
            | PArray image =>
                '(image', st') ← _apply self st image;
                call_keys self ks' st' (<[key := PArray image']> d)
            | _ => None
            end
          else call_keys self ks' st d
      end
  end.

Definition call (self : t) (st : rng) (data : gmap string pyval)
  : option (gmap string pyval * rng) :=
  call_keys self (keys self) st data.

End transform.
End DiscardAddGuidanced.

(** ** AddRandomGuidanced *)

Module AddRandomGuidanced.

Section transform.
Context `{Collaborators}.

(** The instance: the four keys of [__init__], the fields [_will_interact],
    [is_pos], [is_neg], and the random state [self.R] of [Randomizable]. *)
Record t := Build {
  guidance : string;
  discrepancy : string;
  weight_map : option string;
  probability : string;
  _will_interact : option bool;
  is_pos : bool;
  is_neg : bool;
  self_R : rng;
}.

Definition init (guidance discrepancy : string) (weight_map : option string)
    (probability : string) (r : rng) : t :=
  Build guidance discrepancy weight_map probability None false false r.

Definition set_will_interact (self : t) (b : bool) (r : rng) : t :=
  Build (guidance self) (discrepancy self) (weight_map self) (probability self)
        (Some b) (is_pos self) (is_neg self) r.
Definition set_R (self : t) (r : rng) : t :=
  Build (guidance self) (discrepancy self) (weight_map self) (probability self)
        (_will_interact self) (is_pos self) (is_neg self) r.
Definition set_is_pos (self : t) (b : bool) : t :=
  Build (guidance self) (discrepancy self) (weight_map self) (probability self)
        (_will_interact self) b (is_neg self) (self_R self).
Definition set_is_neg (self : t) (b : bool) : t :=
  Build (guidance self) (discrepancy self) (weight_map self) (probability self)
        (_will_interact self) (is_pos self) b (self_R self).

(** [randomize]: KeyError when the probability is missing from the record *)
Definition randomize (self : t) (data : gmap string pyval) : option t :=
  v ← data !! probability self;
  match v with
  | PFloat probability =>
      '(b, r) ← R_choice (self_R self) [true; false]
                  [Q2R probability; (1 - Q2R probability)%R];
      Some (set_will_interact self b r)
  | _ => None
  end.

(** [(distance * weight_map).flatten()], or [distance.flatten()] without a
    weight map.  The weight map has the shape of the mask (docstring);
    another shape is an error here. *)
Definition weighted (distance : ndarray Z) (weight_map : option (ndarray Q))
  : option (list Q) :=
  match weight_map with
  | Some w =>
      if decide (shape w = shape distance)
      then Some (zip_with Qmult (inject_Z <$> data distance) (data w))
      else None
  | None => Some (inject_Z <$> data distance)
  end.

(** [find_guidance]: [Some (None, r)] is the Python result [None]. *)
Definition find_guidance (r : rng) (discrepancy : ndarray Q)
    (weight_map : option (ndarray Q)) : option (option (list Q) * rng) :=
  let distance := distance_transform_cdt discrepancy in
  weighted_distance ← weighted distance weight_map;
  let probability : list R :=
    fmap (M:=list) (λ x, (exp (Q2R x) - 1)%R) weighted_distance in
  let idx := where_positive (data discrepancy) in
  if decide (0 < length idx) then
    p_idx ← mapM (λ i, probability !! i) idx;
    '(seed, r') ← R_choice r idx ((λ x, (x / Rsum p_idx)%R) <$> p_idx);
    dst ← weighted_distance !! seed;
    match unravel_index seed (shape discrepancy) with
    | [] => None                                           (* IndexError *)
    | _ :: g => Some (Some (dst :: ((λ k, inject_Z (Z.of_nat k)) <$> g)), r')
    end
  else Some (None, r).

(** [add_guidance]; [not None] is true, so a missing [_will_interact]
    adds nothing. *)
Definition add_guidance (r : rng) (discrepancy : ndarray Q)
    (weight_map : option (ndarray Q)) (will_interact : option bool)
  : option (option (list Q) * option (list Q) * rng) :=
  if negb (default false will_interact) then Some (None, None, r) else
  pos_discr ← index0 discrepancy 0;
  neg_discr ← index0 discrepancy 1;
  let can_be_positive := Qpositive (Qsum (data pos_discr)) in
  let can_be_negative := Qpositive (Qsum (data neg_discr)) in
  let correct_pos := Qle_bool (Qsum (data neg_discr)) (Qsum (data pos_discr)) in
  if correct_pos && can_be_positive then
    '(g, r') ← find_guidance r pos_discr weight_map; Some (g, None, r')
  else if negb correct_pos && can_be_negative then
    '(g, r') ← find_guidance r neg_discr weight_map; Some (None, g, r')
  else Some (None, None, r).

(** the incoming guidance as nested lists: [tolist()] of an array,
    [json.loads] of a string, a list as it is.  The guidance has shape
    (2, N, #dim) (docstring); a value of another kind or depth is outside
    the model and counts as an error. *)
Definition decode (guidance : pyval) : option (nested Q) :=
  match guidance with
  | PArray a => tolist3 a
  | PStr s => json_loads s
  | PList g => Some g
  | _ => None
  end.

(** [guidance[0].append(p); guidance[1].append(q)]; IndexError when the
    guidance has fewer than two rows *)
Definition append2 (g : nested Q) (p q : list Q) : option (nested Q) :=
  match g with
  | g0 :: g1 :: rest => Some ((g0 ++ [p]) :: (g1 ++ [q]) :: rest)
  | _ => None
  end.

(** [if pos:] a point is true when it is a non-empty list *)
Definition truthy (p : option (list Q)) : bool :=
  match p with Some (_ :: _) => true | _ => false end.

Definition sentinel (p : list Q) : list Q := replicate (length p) (-1)%Q.

Definition _apply (self : t) (guidance : pyval) (discrepancy : ndarray Q)
    (weight_map : option (ndarray Q)) : option (string * t) :=
  guidance ← decode guidance;
  '(pos, neg, r) ← add_guidance (self_R self) discrepancy weight_map
                     (_will_interact self);
  let self := set_R self r in
  '(guidance, self) ←
    (if truthy pos then
       guidance ← append2 guidance (default [] pos) (sentinel (default [] pos));
       Some (guidance, set_is_pos self true)
     else Some (guidance, self));
  '(guidance, self) ←
    (if truthy neg then
       guidance ← append2 guidance (sentinel (default [] neg)) (default [] neg);
       Some (guidance, set_is_neg self true)
     else Some (guidance, self));
  a ← asarray_int guidance;
  Some (json_dumps a, self).

(** the array stored under a key; KeyError when the key is missing *)
Definition get_array (d : gmap string pyval) (k : string) : option (ndarray Q) :=
  v ← d !! k; match v with PArray a => Some a | _ => None end.

Definition call (self : t) (data : gmap string pyval)
  : option (gmap string pyval * t) :=
  let d := data in
  guidance_v ← d !! guidance self;
  discrepancy_v ← get_array d (discrepancy self);
  weight_map_v ← match weight_map self with
                 | Some k => Some <$> get_array d k
                 | None => Some None
                 end;
  self ← randomize self data;
  '(s, self) ← _apply self guidance_v discrepancy_v weight_map_v;
  let d := <[guidance self := PStr s]> d in
  let d := <["is_pos"%string := PBool (is_pos self)]> d in
  let d := <["is_neg"%string := PBool (is_neg self)]> d in
  Some (d, set_is_neg (set_is_pos self false) false).

End transform.
End AddRandomGuidanced.

(** ** The sampling routine in the words of the specification

    "distance-transform weighting → exponential reweighting → weighted
    random pick": the weight of a voxel is [exp(distance) - 1]; a flat
    index is drawn among the positive voxels of the mask with the
    weights normalised over those voxels. *)

Module SamplingSpec.
Section spec.
Context `{Collaborators}.

Definition weights (mask : ndarray Q) : list R :=
  (λ d, (exp (IZR d) - 1)%R) <$> data (distance_transform_cdt mask).

Definition distribution (mask : ndarray Q) : option (list R) :=
  w ← mapM (λ i, weights mask !! i) (where_positive (data mask));
  Some ((λ x, (x / Rsum w)%R) <$> w).

Definition pick_seed (r : rng) (mask : ndarray Q) : option (nat * rng) :=
  p ← distribution mask;
  R_choice r (where_positive (data mask)) p.

End spec.
End SamplingSpec.

(** ** PosNegClickProbAddRandomGuidanced *)

Module PosNegClickProbAddRandomGuidanced.

Section transform.
Context `{Collaborators}.

Record t := Build {
  guidance : string;
  discrepancy : string;
  probability : string;
  pos_click_probability : Q;
  weight_map : option string;
  _will_interact : option bool;
  is_pos : bool;
  is_neg : bool;
  self_R : rng;
}.

Definition init (guidance discrepancy probability : string)
    (pos_click_probability : Q) (weight_map : option string) (r : rng) : t :=
  Build guidance discrepancy probability pos_click_probability weight_map
        None false false r.

Definition set_will_interact (self : t) (b : bool) (r : rng) : t :=
  Build (guidance self) (discrepancy self) (probability self)
        (pos_click_probability self) (weight_map self)
        (Some b) (is_pos self) (is_neg self) r.
Definition set_R (self : t) (r : rng) : t :=
  Build (guidance self) (discrepancy self) (probability self)
        (pos_click_probability self) (weight_map self)
        (_will_interact self) (is_pos self) (is_neg self) r.
Definition set_is_pos (self : t) (b : bool) : t :=
  Build (guidance self) (discrepancy self) (probability self)
        (pos_click_probability self) (weight_map self)
        (_will_interact self) b (is_neg self) (self_R self).
Definition set_is_neg (self : t) (b : bool) : t :=
  Build (guidance self) (discrepancy self) (probability self)
        (pos_click_probability self) (weight_map self)
        (_will_interact self) (is_pos self) b (self_R self).

Definition randomize (self : t) (data : gmap string pyval) : option t :=
  v ← data !! probability self;
  match v with
  | PFloat probability =>
      '(b, r) ← R_choice (self_R self) [true; false]
                  [Q2R probability; (1 - Q2R probability)%R];
      Some (set_will_interact self b r)
  | _ => None
  end.

Definition weighted (distance : ndarray Z) (weight_map : option (ndarray Q))
  : option (list Q) :=
  match weight_map with
  | Some w =>
      if decide (shape w = shape distance)
      then Some (zip_with Qmult (inject_Z <$> data distance) (data w))
      else None
  | None => Some (inject_Z <$> data distance)
  end.

Definition find_guidance (r : rng) (discrepancy : ndarray Q)
    (weight_map : option (ndarray Q)) : option (option (list Q) * rng) :=
  let distance := distance_transform_cdt discrepancy in
  weighted_distance ← weighted distance weight_map;
  let probability : list R :=
    fmap (M:=list) (λ x, (exp (Q2R x) - 1)%R) weighted_distance in
  let idx := where_positive (data discrepancy) in
  if decide (0 < length idx) then
    p_idx ← mapM (λ i, probability !! i) idx;
    '(seed, r') ← R_choice r idx ((λ x, (x / Rsum p_idx)%R) <$> p_idx);
    dst ← weighted_distance !! seed;
    match unravel_index seed (shape discrepancy) with
    | [] => None
    | _ :: g => Some (Some (dst :: ((λ k, inject_Z (Z.of_nat k)) <$> g)), r')
    end
  else Some (None, r).

(** [add_guidance]: the side of the click is drawn with
    [pos_click_probability] before the masks are looked at. *)
Definition add_guidance (self : t) (r : rng) (discrepancy : ndarray Q)
    (weight_map : option (ndarray Q)) (will_interact : option bool)
  : option (option (list Q) * option (list Q) * rng) :=
  if negb (default false will_interact) then Some (None, None, r) else
  pos_discr ← index0 discrepancy 0;
  neg_discr ← index0 discrepancy 1;
  let can_be_positive := Qpositive (Qsum (data pos_discr)) in
  let can_be_negative := Qpositive (Qsum (data neg_discr)) in
  let pos_prob := Q2R (pos_click_probability self) in
  let neg_prob := (1 - pos_prob)%R in
  '(correct_pos, r) ← R_choice r [true; false] [pos_prob; neg_prob];
  if can_be_positive && negb can_be_negative then
    '(g, r') ← find_guidance r pos_discr weight_map; Some (g, None, r')
  else if negb can_be_positive && can_be_negative then
    '(g, r') ← find_guidance r neg_discr weight_map; Some (None, g, r')
  else if (correct_pos : bool) && can_be_positive then
    '(g, r') ← find_guidance r pos_discr weight_map; Some (g, None, r')
  else if negb correct_pos && can_be_negative then
    '(g, r') ← find_guidance r neg_discr weight_map; Some (None, g, r')
  else Some (None, None, r).

Definition decode (guidance : pyval) : option (nested Q) :=
  match guidance with
  | PArray a => tolist3 a
  | PStr s => json_loads s
  | PList g => Some g
  | _ => None
  end.

Definition append2 (g : nested Q) (p q : list Q) : option (nested Q) :=
  match g with
  | g0 :: g1 :: rest => Some ((g0 ++ [p]) :: (g1 ++ [q]) :: rest)
  | _ => None
  end.

Definition truthy (p : option (list Q)) : bool :=
  match p with Some (_ :: _) => true | _ => false end.

Definition sentinel (p : list Q) : list Q := replicate (length p) (-1)%Q.

Definition _apply (self : t) (guidance : pyval) (discrepancy : ndarray Q)
    (weight_map : option (ndarray Q)) : option (string * t) :=
  guidance ← decode guidance;
  '(pos, neg, r) ← add_guidance self (self_R self) discrepancy weight_map
                     (_will_interact self);
  let self := set_R self r in
  '(guidance, self) ←
    (if truthy pos then
       guidance ← append2 guidance (default [] pos) (sentinel (default [] pos));
       Some (guidance, set_is_pos self true)
     else Some (guidance, self));
  '(guidance, self) ←
    (if truthy neg then
       guidance ← append2 guidance (sentinel (default [] neg)) (default [] neg);
       Some (guidance, set_is_neg self true)
     else Some (guidance, self));
  a ← asarray_int guidance;
  Some (json_dumps a, self).

Definition get_array (d : gmap string pyval) (k : string) : option (ndarray Q) :=
  v ← d !! k; match v with PArray a => Some a | _ => None end.

Definition call (self : t) (data : gmap string pyval)
  : option (gmap string pyval * t) :=
  let d := data in
  guidance_v ← d !! guidance self;
  discrepancy_v ← get_array d (discrepancy self);
  weight_map_v ← match weight_map self with
                 | Some k => Some <$> get_array d k
                 | None => Some None
                 end;
  self ← randomize self data;
  '(s, self) ← _apply self guidance_v discrepancy_v weight_map_v;
  let d := <[guidance self := PStr s]> d in
  let d := <["is_pos"%string := PBool (is_pos self)]> d in
  let d := <["is_neg"%string := PBool (is_neg self)]> d in
  Some (d, set_is_neg (set_is_pos self false) false).

End transform.
End PosNegClickProbAddRandomGuidanced.

(** ** SingleLabelSingleModalityd *)

Module SingleLabelSingleModalityd.

(** A metadata dictionary with the three entries the transform touches.
    The record holds references ([PDict]) to metadata dictionaries, which
    live in a heap: [meta_data["pixdim"][4] = 0.0] writes through the
    reference, so two keys bound to one dictionary see one update. *)
Record meta_dict := MetaDict {
  pixdim : list Q;
  dim : list Z;
  filename_or_obj : string;
}.

Abbreviation record := (gmap string pyval).
Abbreviation heap := (gmap loc meta_dict).

(** [d[k]] for a metadata dictionary; KeyError when the key is missing *)
Definition get_meta (d : record) (h : heap) (k : string)
  : option (loc * meta_dict) :=
  v ← d !! k;
  match v with
  | PDict l => m ← h !! l; Some (l, m)
  | _ => None
  end.

Definition get_array (d : record) (k : string) : option (ndarray Q) :=
  v ← d !! k; match v with PArray a => Some a | _ => None end.

(** [l[i] = x]; IndexError out of range *)
Definition set_index {A} (l : list A) (i : nat) (x : A) : option (list A) :=
  if decide (i < length l) then Some (<[i := x]> l) else None.

(** [meta["pixdim"][4] = 0.0; meta["dim"][0] = 3; meta["dim"][4] = 1] *)
Definition patch (m : meta_dict) : option meta_dict :=
  pixdim' ← set_index (pixdim m) 4 0%Q;
  dim' ← set_index (dim m) 0 3%Z;
  dim'' ← set_index dim' 4 1%Z;
  Some (MetaDict pixdim' dim'' (filename_or_obj m)).

(** [np.stack([x > 0, x == 0], axis=0).astype(np.float32)[0, ...]] *)
Definition foreground (a : ndarray Q) : ndarray Q :=
  NdArray (shape a) ((λ q, if Qpositive q then 1%Q else 0%Q) <$> data a).

(** [x > 1] *)
Definition Qgt1 (q : Q) : bool := negb (Qle_bool q 1).

(** the body of [if key == "label":] *)
Definition label_branch (key : string) (s : record * heap)
  : option (record * heap) :=
  let '(d, h) := s in
  '(l, meta_data) ← get_meta d h "label_meta_dict";
  label ← get_array d key;
  mx ← np_max (data label);
  if Qgt1 mx then
    let d := <[key := PArray (foreground label)]> d in
    meta_data ← patch meta_data;
    Some (d, <[l := meta_data]> h)
  else Some (d, h).

(** the body of [if key == "image":] *)
Definition image_branch (key : string) (s : record * heap)
  : option (record * heap) :=
  let '(d, h) := s in
  '(l, meta_data) ← get_meta d h "image_meta_dict";
  p4 ← pixdim meta_data !! 4;
  if Qpositive p4 then
    image ← get_array d key;
    image ← take_last0 image;
    let d := <[key := PArray image]> d in
    meta_data ← patch meta_data;
    Some (d, <[l := meta_data]> h)
  else Some (d, h).

(** one turn of [for key in self.keys] *)
Definition step (key : string) (s : record * heap) : option (record * heap) :=
  s ← (if decide (key = "label"%string) then label_branch key s else Some s);
  if decide (key = "image"%string) then image_branch key s else Some s.

Fixpoint call_keys (ks : list string) (s : record * heap)
  : option (record * heap) :=
  match ks with
  | [] => Some s
  | key :: ks' => s ← step key s; call_keys ks' s
  end.

(** [__call__] of a transform built with [keys] *)
Definition call (keys : list string) (data : record) (h : heap)
  : option (record * heap) :=
  call_keys keys (data, h).

(** The states in which a branch does nothing: the label has no value
    above 1; the image metadata has no positive [pixdim[4]]. *)
Definition quiet_label (s : record * heap) : Prop :=
  ∃ l m a mx,
    s.1 !! "label_meta_dict"%string = Some (PDict l) ∧ s.2 !! l = Some m ∧
    s.1 !! "label"%string = Some (PArray a) ∧
    np_max (data a) = Some mx ∧ Qgt1 mx = false.

Definition quiet_image (s : record * heap) : Prop :=
  ∃ l m p4,
    s.1 !! "image_meta_dict"%string = Some (PDict l) ∧ s.2 !! l = Some m ∧
    pixdim m !! 4 = Some p4 ∧ Qpositive p4 = false.

End SingleLabelSingleModalityd.

(** ** Reference collaborators

    One concrete environment, used to run the transforms on examples. *)

Module Reference.

(** *** Chamfer distance transform, chessboard metric

    [distance_transform_cdt] starts from [np.where(input, -1, 0)]: every
    non-zero voxel is marked not yet reached ([-1]), every zero voxel is
    at distance [0].  Two chamfer sweeps then give a voxel one more
    than the least neighbour that has been reached (value [>= 0]).  The
    result is the chessboard distance to the nearest zero voxel.  The
    border of the array is not background, so in an array without a zero
    voxel no voxel is ever reached and all stay at [-1]. *)
Definition chebyshev (p q : list nat) : nat :=
  foldr Nat.max 0 (zip_with (λ a b, (a - b) + (b - a)) p q).

Definition nearest (s : list nat) (zs : list nat) (i : nat) : Z :=
  match zs with
  | [] => (-1)%Z
  | z :: zs' =>
      Z.of_nat (foldr Nat.min (chebyshev (unravel_index i s) (unravel_index z s))
                  ((λ z', chebyshev (unravel_index i s) (unravel_index z' s)) <$> zs'))
  end.

Definition chessboard_cdt (a : ndarray Q) : ndarray Z :=
  let zs := where_from (λ q, negb (Qnonzero q)) 0 (data a) in
  NdArray (shape a)
          (imap (λ i q, if Qnonzero q then nearest (shape a) zs i else 0%Z) (data a)).


(** *** Random state: a counter; [choice] takes the element the counter
    points at and ignores the weights (ValueError on an empty list). *)
Definition pick (A : Type) (st : nat) (a : list A) (p : list R)
  : option (A * nat) :=
  x ← a !! (st mod length a); Some (x, S st).

(** *** json: integer arrays of depth three, as [json.dumps] writes them *)
Definition print_Z (z : Z) : string :=
  DecimalString.NilEmpty.string_of_int (Z.to_int z).
Definition print_list {A} (f : A → string) (l : list A) : string :=
  ("[" ++ String.concat ", " (f <$> l) ++ "]")%string.
Definition print_nested (g : nested Z) : string :=
  print_list (print_list (print_list print_Z)) g.

Inductive token := TOpen | TClose | TComma | TNum (z : Z).

(** the number under construction: its sign and the digits read so far *)
Definition flush (cur : option (bool * option N)) (k : option (list token))
  : option (list token) :=
  match cur with
  | None => k
  | Some (_, None) => None
  | Some (neg, Some n) =>
      (λ ts, TNum (if neg : bool then - Z.of_N n else Z.of_N n)%Z :: ts) <$> k
  end.

Definition digit (c : Ascii.ascii) : option N :=
  let n := Ascii.N_of_ascii c in
  if ((48 <=? n) && (n <=? 57))%N then Some (n - 48)%N else None.

Fixpoint lex (cur : option (bool * option N)) (s : string) : option (list token) :=
  match s with
  | EmptyString => flush cur (Some [])
  | String c s' =>
      match digit c, cur with
      | Some d, None => lex (Some (false, Some d)) s'
      | Some d, Some (neg, None) => lex (Some (neg, Some d)) s'
      | Some d, Some (neg, Some n) => lex (Some (neg, Some (10 * n + d)%N)) s'
      | None, _ =>
          if decide (c = "-"%char) then
            match cur with None => lex (Some (true, None)) s' | _ => None end
          else if decide (c = " "%char) then flush cur (lex None s')
          else if decide (c = "["%char) then flush cur (cons TOpen <$> lex None s')
          else if decide (c = "]"%char) then flush cur (cons TClose <$> lex None s')
          else if decide (c = ","%char) then flush cur (cons TComma <$> lex None s')
          else None
      end
  end.

(** the parser state: depth, rows closed so far, the open row, the open
    point, and the token before *)
Record pstate := PState {
  depth : nat;
  rows : nested Q;
  row : list (list Q);
  point : list Q;
  prev : option token;
}.

Definition value_may_start (prev : option token) : bool :=
  match prev with
  | None | Some TOpen | Some TComma => true
  | _ => false
  end.
Definition value_ended (prev : option token) : bool :=
  match prev with
  | Some TClose | Some (TNum _) => true
  | _ => false
  end.

Definition feed (s : pstate) (t : token) : option pstate :=
  match t, depth s with
  | TOpen, 0 =>
      if prev s is None then Some (PState 1 [] [] [] (Some t)) else None
  | TOpen, 1 =>
      if value_may_start (prev s) then Some (PState 2 (rows s) [] [] (Some t)) else None
  | TOpen, 2 =>
      if value_may_start (prev s) then Some (PState 3 (rows s) (row s) [] (Some t)) else None
  | TNum z, 3 =>
      if value_may_start (prev s)
      then Some (PState 3 (rows s) (row s) (point s ++ [inject_Z z]) (Some t)) else None
  | TComma, S _ =>
      if value_ended (prev s)
      then Some (PState (depth s) (rows s) (row s) (point s) (Some t)) else None
  | TClose, 3 =>
      if prev s is Some TComma then None
      else Some (PState 2 (rows s) (row s ++ [point s]) [] (Some t))
  | TClose, 2 =>
      if prev s is Some TComma then None
      else Some (PState 1 (rows s ++ [row s]) [] [] (Some t))
  | TClose, 1 =>
      if prev s is Some TComma then None
      else Some (PState 0 (rows s) [] [] (Some t))
  | _, _ => None
  end.

Definition parse_nested (s : string) : option (nested Q) :=
  ts ← lex None s;
  st ← foldl (λ o t, o ≫= λ st, feed st t) (Some (PState 0 [] [] [] None)) ts;
  if decide (depth st = 0) then
    if prev st is Some TClose then Some (rows st) else None
  else None.

#[export] Instance collaborators : Collaborators := {|
  rng := nat;
  distance_transform_cdt := chessboard_cdt;
  R_choice := pick;
  json_loads := parse_nested;
  json_dumps := print_nested;
|}.

End Reference.


(** ** Sample records, run in the reference environment *)

Module Samples.
Import Reference.
Open Scope string_scope.

(** a fresh [AddRandomGuidanced()] and a fresh
    [PosNegClickProbAddRandomGuidanced()] with the default keys *)
Definition add_random : AddRandomGuidanced.t :=
  AddRandomGuidanced.init "guidance" "discrepancy" None "probability" (0 : rng).
Definition pos_neg : PosNegClickProbAddRandomGuidanced.t :=
  PosNegClickProbAddRandomGuidanced.init "guidance" "discrepancy" "probability"
    (1 # 2) None (0 : rng).

(** a discrepancy of shape (2, 1, 1, 1, 2): one false negative at the
    second voxel, no false positive *)
Definition discrepancy : ndarray Q := NdArray [2; 1; 1; 1; 2] [0; 1; 0; 0]%Q.

(** a record with an empty guidance, a certain interaction *)
Definition record (guidance : pyval) : gmap string pyval :=
  <["guidance" := guidance]>
    (<["discrepancy" := PArray discrepancy]> (<["probability" := PFloat 1%Q]> ∅)).

Definition empty_guidance : nested Q := [[]; []].

(** what a call stores after a positive click *)
Definition clicked (s : string) (data : gmap string pyval) : gmap string pyval :=
  <["is_neg" := PBool false]>
    (<["is_pos" := PBool true]> (<["guidance" := PStr s]> data)).

(** the same guidance, one earlier click, in its three Python types *)
Definition as_list : pyval := PList [[[7; 1; 1; 1]]; [[-1; -1; -1; -1]]]%Q.
Definition as_string : pyval := PStr "[[[7, 1, 1, 1]], [[-1, -1, -1, -1]]]".
Definition two_clicks : string :=
  "[[[7, 1, 1, 1], [1, 0, 0, 1]], [[-1, -1, -1, -1], [-1, -1, -1, -1]]]".

(** masks of shape (1, 1, 1, 3) and (1, 1, 1, 2): two error voxels next to
    a correct one; no correct voxel at all; no error voxel *)
Definition mask : ndarray Q := NdArray [1; 1; 1; 3] [0; 1; 1]%Q.
Definition empty_mask : ndarray Q := NdArray [1; 1; 1; 2] [0; 0]%Q.

(** a transform with a weight map; the discrepancy has the mask above as
    its false negatives, and the weights scale the distances by 3/4 *)
Definition weighted_add_random : AddRandomGuidanced.t :=
  AddRandomGuidanced.init "guidance" "discrepancy" (Some "weights") "probability"
    (0 : rng).
Definition weighted_record : gmap string pyval :=
  <["guidance" := PList empty_guidance]>
    (<["discrepancy" := PArray (NdArray [2; 1; 1; 1; 3] [0; 1; 1; 0; 0; 0]%Q)]>
       (<["weights" := PArray (NdArray [1; 1; 1; 3] [1; 3 # 4; 3 # 4]%Q)]>
          (<["probability" := PFloat 1%Q]> ∅))).

(** [DiscardAddGuidanced(keys="image")] with its defaults, and an image of
    shape (3, 1, 1, 2): one intensity channel and two guidance channels *)
Definition discard : DiscardAddGuidanced.t :=
  {| DiscardAddGuidanced.keys := ["image"];
     DiscardAddGuidanced.number_intensity_ch := 1;
     DiscardAddGuidanced.discard_probability := 1;
     DiscardAddGuidanced.allow_missing_keys := false |}.
Definition image : ndarray Q := NdArray [3; 1; 1; 2] [5; 6; 7; 8; 9; 10]%Q.

(** a record for [SingleLabelSingleModalityd(keys=("image", "label"))]: a
    label with two masks and an image with two modalities, each with its
    own metadata dictionary; and the record after the transform *)
Definition label_meta : SingleLabelSingleModalityd.meta_dict :=
  SingleLabelSingleModalityd.MetaDict
    [1; 1; 1; 1; 0; 0; 0; 0]%Q [3; 1; 1; 3; 1; 1; 1; 1]%Z "/data/label.nii.gz".
Definition image_meta : SingleLabelSingleModalityd.meta_dict :=
  SingleLabelSingleModalityd.MetaDict
    [1; 1; 1; 1; 2; 0; 0; 0]%Q [4; 1; 1; 2; 2; 1; 1; 1]%Z "/data/image.nii.gz".
Definition volumes : gmap string pyval :=
  <["label" := PArray (NdArray [1; 1; 3] [0; 2; 1]%Q)]>
    (<["label_meta_dict" := PDict 0]>
       (<["image" := PArray (NdArray [1; 1; 2; 2] [5; 6; 7; 8]%Q)]>
          (<["image_meta_dict" := PDict 1]> ∅))).
Definition metadata : gmap loc SingleLabelSingleModalityd.meta_dict :=
  <[0 := label_meta]> (<[1 := image_meta]> ∅).

Definition single_meta (name : string) : SingleLabelSingleModalityd.meta_dict :=
  SingleLabelSingleModalityd.MetaDict
    [1; 1; 1; 1; 0; 0; 0; 0]%Q [3; 1; 1; 3; 1; 1; 1; 1]%Z name.
Definition single_volumes : gmap string pyval :=
  <["label" := PArray (NdArray [1; 1; 3] [0; 1; 1]%Q)]>
    (<["label_meta_dict" := PDict 0]>
       (<["image" := PArray (NdArray [1; 1; 2] [5; 7]%Q)]>
          (<["image_meta_dict" := PDict 1]> ∅))).
Definition single_metadata : gmap loc SingleLabelSingleModalityd.meta_dict :=
  <[0 := single_meta "/data/label.nii.gz"]>
    (<[1 := SingleLabelSingleModalityd.MetaDict
              [1; 1; 1; 1; 0; 0; 0; 0]%Q [3; 1; 1; 2; 1; 1; 1; 1]%Z
              "/data/image.nii.gz"]> ∅).

End Samples.

(** ** What SingleLabelSingleModalityd leaves alone *)

Section single_frames.
Import SingleLabelSingleModalityd.

(** What one branch may change: the entry of its key; the metadata
    dictionary behind its reference, the file name apart. *)
Definition branch_frame (key meta : string) (s s' : record * heap) : Prop :=
  s' = s ∨
  ∃ v l m m', s.1 !! meta = Some (PDict l) ∧ s.2 !! l = Some m ∧
    filename_or_obj m' = filename_or_obj m ∧
    s' = (<[key := v]> s.1, <[l := m']> s.2).

(** What a run of the transform may change *)
Definition frame (s s' : record * heap) : Prop :=
  (∀ k, k ≠ "label"%string → k ≠ "image"%string → s'.1 !! k = s.1 !! k) ∧
  (∀ k, is_Some (s'.1 !! k) ↔ is_Some (s.1 !! k)) ∧
  (∀ l, s.1 !! "label_meta_dict"%string ≠ Some (PDict l) →
        s.1 !! "image_meta_dict"%string ≠ Some (PDict l) → s'.2 !! l = s.2 !! l) ∧
  (∀ l m', s'.2 !! l = Some m' →
     ∃ m, s.2 !! l = Some m ∧ filename_or_obj m' = filename_or_obj m).

End single_frames.

(** * Properties *)

(** ** The transforms on the sample records *)

Section runs.
Import Reference.

Example discard_zeroes_the_guidance_channels :
  DiscardAddGuidanced._apply Samples.discard 0 Samples.image
  = Some (NdArray [3; 1; 1; 2] [5; 6; 0; 0; 0; 0]%Q, 0).
Proof. reflexivity. Qed.

Example discard_appends_guidance_channels :
  DiscardAddGuidanced._apply Samples.discard 0 (NdArray [1; 1; 1; 2] [5; 6]%Q)
  = Some (NdArray [3; 1; 1; 2] [5; 6; 0; 0; 0; 0]%Q, 0).
Proof. reflexivity. Qed.

Example discard_needs_a_volume :
  DiscardAddGuidanced._apply Samples.discard 0 (NdArray [2; 2] [5; 6; 7; 8]%Q) = None.
Proof. reflexivity. Qed.

Example chamfer_distances :
  distance_transform_cdt (NdArray [1; 3; 3] [1; 1; 1; 1; 1; 1; 1; 1; 0]%Q)
  = NdArray [1; 3; 3] [2; 2; 2; 2; 1; 1; 2; 1; 0]%Z.
Proof. reflexivity. Qed.

Example find_guidance_on_the_mask :
  AddRandomGuidanced.find_guidance 1 Samples.mask None = Some (Some [2; 0; 0; 2]%Q, 2).
Proof. reflexivity. Qed.

Example find_guidance_without_error_voxel :
  AddRandomGuidanced.find_guidance 1 Samples.empty_mask None = Some (None, 1).
Proof. reflexivity. Qed.

(** the weighted distance at the seed, 2 * 3/4, is stored as 1 *)
Example weighted_distance_is_truncated :
  (fst <$> AddRandomGuidanced.call Samples.weighted_add_random Samples.weighted_record)
    ≫= (λ d, d !! "guidance"%string)
  = Some (PStr "[[[1, 0, 0, 2]], [[-1, -1, -1, -1]]]").
Proof. vm_compute. reflexivity. Qed.

Example astype_int_truncates_toward_zero :
  astype_int (3 # 2) = 1%Z ∧ astype_int (- 3 # 2) = (-1)%Z ∧ astype_int 2 = 2%Z.
Proof. repeat split. Qed.

Example ragged_guidance_is_an_error :
  AddRandomGuidanced._apply
    (AddRandomGuidanced.set_will_interact Samples.add_random true 1)
    (PList [[[7; 1; 1]]; [[-1; -1; -1]]]%Q) Samples.discrepancy None = None.
Proof. reflexivity. Qed.

Example json_round_trip :
  json_loads (json_dumps [[[1; -2; 30]; [0; 0; 0]]; [[-1; -1; -1]; [4; 5; 6]]]%Z)
  = Some [[[1; -2; 30]; [0; 0; 0]]; [[-1; -1; -1]; [4; 5; 6]]]%Q.
Proof. reflexivity. Qed.

End runs.

(** ** What [_apply] and [add_guidance] do, case by case *)

Ltac split_binds :=
  repeat match goal with
  | H : context [mbind _ ?o] |- _ =>
      let E := fresh "E" in destruct o as [?|] eqn:E; simpl in H; [|discriminate H]
  | H : context [match ?p with (_, _) => _ end] |- _ => destruct p
  | H : Some _ = Some _ |- _ => injection H as H; subst
  | H : (_, _) = (_, _) |- _ => injection H as H; subst
  end.

Section guidance_facts.
Context `{Collaborators}.

Lemma add_guidance_one_side r discrepancy weight_map will_interact pos neg r' :
  AddRandomGuidanced.add_guidance r discrepancy weight_map will_interact
    = Some (pos, neg, r') →
  pos = None ∨ neg = None.
Proof.
  unfold AddRandomGuidanced.add_guidance. intros Hag.
  repeat (first [case_match | progress split_binds]); simplify_eq; auto.
Qed.

Lemma add_guidance_one_side' self r discrepancy weight_map will_interact pos neg r' :
  PosNegClickProbAddRandomGuidanced.add_guidance self r discrepancy weight_map
    will_interact = Some (pos, neg, r') →
  pos = None ∨ neg = None.
Proof.
  unfold PosNegClickProbAddRandomGuidanced.add_guidance. intros Hag.
  repeat (first [case_match | progress split_binds]); simplify_eq; auto.
Qed.

(** [_apply] decodes the guidance, asks [add_guidance] for at most one
    point, appends it with its sentinel, and writes the integer array. *)
Lemma apply_inv self g discrepancy weight_map s self' :
  AddRandomGuidanced._apply self g discrepancy weight_map = Some (s, self') →
  ∃ G pos neg r G2,
    AddRandomGuidanced.decode g = Some G ∧
    AddRandomGuidanced.add_guidance (AddRandomGuidanced.self_R self) discrepancy
      weight_map (AddRandomGuidanced._will_interact self) = Some (pos, neg, r) ∧
    ((AddRandomGuidanced.truthy pos = false ∧ AddRandomGuidanced.truthy neg = false
        ∧ G2 = G)
     ∨ (∃ p, pos = Some p ∧ AddRandomGuidanced.truthy pos = true
        ∧ AddRandomGuidanced.truthy neg = false
        ∧ AddRandomGuidanced.append2 G p (AddRandomGuidanced.sentinel p) = Some G2)
     ∨ (∃ q, neg = Some q ∧ AddRandomGuidanced.truthy neg = true
        ∧ AddRandomGuidanced.truthy pos = false
        ∧ AddRandomGuidanced.append2 G (AddRandomGuidanced.sentinel q) q = Some G2)) ∧
    rectangular G2 = true ∧
    s = json_dumps (map3 astype_int G2) ∧
    self' = AddRandomGuidanced.Build
              (AddRandomGuidanced.guidance self) (AddRandomGuidanced.discrepancy self)
              (AddRandomGuidanced.weight_map self) (AddRandomGuidanced.probability self)
              (AddRandomGuidanced._will_interact self)
              (AddRandomGuidanced.is_pos self || AddRandomGuidanced.truthy pos)
              (AddRandomGuidanced.is_neg self || AddRandomGuidanced.truthy neg) r.
Proof.
  unfold AddRandomGuidanced._apply, asarray_int. intros Hap. split_binds.
  destruct (rectangular _) eqn:Hrect; [|discriminate]. simplify_eq.
  match goal with E : AddRandomGuidanced.add_guidance _ _ _ _ = Some (?p, ?q, _) |- _ =>
    pose proof (add_guidance_one_side _ _ _ _ _ _ _ E) as [-> | ->] end.
  - simpl in *. simplify_eq.
    destruct (AddRandomGuidanced.truthy o0) eqn:Hn.
    + destruct o0 as [[|x q]|]; try discriminate. split_binds. simpl in *.
      eexists _, None, (Some (x :: q)), _, _. repeat split; eauto.
      * right; right. eexists; repeat split; eauto.
      * destruct self; simpl. by rewrite !orb_false_r, ?orb_true_r.
    + simplify_eq. eexists _, None, o0, _, _. repeat split; eauto.
      destruct self; simpl. by rewrite Hn, !orb_false_r.
  - destruct (AddRandomGuidanced.truthy o) eqn:Hp.
    + destruct o as [[|x p]|]; try discriminate. split_binds. simpl in *. simplify_eq.
      eexists _, (Some (x :: p)), None, _, _. repeat split; eauto.
      * right; left. eexists; repeat split; eauto.
      * destruct self; simpl. by rewrite !orb_false_r, ?orb_true_r.
    + simpl in *. simplify_eq. eexists _, o, None, _, _. repeat split; eauto.
      destruct self; simpl. by rewrite Hp, !orb_false_r.
Qed.


(** the same for the transform with a click-side probability *)
Lemma apply_inv' self g discrepancy weight_map s self' :
  PosNegClickProbAddRandomGuidanced._apply self g discrepancy weight_map = Some (s, self') →
  ∃ G pos neg r G2,
    PosNegClickProbAddRandomGuidanced.decode g = Some G ∧
    PosNegClickProbAddRandomGuidanced.add_guidance self
      (PosNegClickProbAddRandomGuidanced.self_R self) discrepancy
      weight_map (PosNegClickProbAddRandomGuidanced._will_interact self) = Some (pos, neg, r) ∧
    ((PosNegClickProbAddRandomGuidanced.truthy pos = false ∧ PosNegClickProbAddRandomGuidanced.truthy neg = false
        ∧ G2 = G)
     ∨ (∃ p, pos = Some p ∧ PosNegClickProbAddRandomGuidanced.truthy pos = true
        ∧ PosNegClickProbAddRandomGuidanced.truthy neg = false
        ∧ PosNegClickProbAddRandomGuidanced.append2 G p (PosNegClickProbAddRandomGuidanced.sentinel p) = Some G2)
     ∨ (∃ q, neg = Some q ∧ PosNegClickProbAddRandomGuidanced.truthy neg = true
        ∧ PosNegClickProbAddRandomGuidanced.truthy pos = false
        ∧ PosNegClickProbAddRandomGuidanced.append2 G (PosNegClickProbAddRandomGuidanced.sentinel q) q = Some G2)) ∧
    rectangular G2 = true ∧
    s = json_dumps (map3 astype_int G2) ∧
    self' = PosNegClickProbAddRandomGuidanced.Build
              (PosNegClickProbAddRandomGuidanced.guidance self)
              (PosNegClickProbAddRandomGuidanced.discrepancy self)
              (PosNegClickProbAddRandomGuidanced.probability self)
              (PosNegClickProbAddRandomGuidanced.pos_click_probability self)
              (PosNegClickProbAddRandomGuidanced.weight_map self)
              (PosNegClickProbAddRandomGuidanced._will_interact self)
              (PosNegClickProbAddRandomGuidanced.is_pos self || PosNegClickProbAddRandomGuidanced.truthy pos)
              (PosNegClickProbAddRandomGuidanced.is_neg self || PosNegClickProbAddRandomGuidanced.truthy neg) r.
Proof.
  unfold PosNegClickProbAddRandomGuidanced._apply, asarray_int. intros Hap. split_binds.
  destruct (rectangular _) eqn:Hrect; [|discriminate]. simplify_eq.
  match goal with E : PosNegClickProbAddRandomGuidanced.add_guidance _ _ _ _ _ = Some (?p, ?q, _) |- _ =>
    pose proof (add_guidance_one_side' _ _ _ _ _ _ _ _ E) as [-> | ->] end.
  - simpl in *. simplify_eq.
    destruct (PosNegClickProbAddRandomGuidanced.truthy o0) eqn:Hn.
    + destruct o0 as [[|x q]|]; try discriminate. split_binds. simpl in *.
      eexists _, None, (Some (x :: q)), _, _. repeat split; eauto.
      * right; right. eexists; repeat split; eauto.
      * destruct self; simpl. by rewrite !orb_false_r, ?orb_true_r.
    + simplify_eq. eexists _, None, o0, _, _. repeat split; eauto.
      destruct self; simpl. by rewrite Hn, !orb_false_r.
  - destruct (PosNegClickProbAddRandomGuidanced.truthy o) eqn:Hp.
    + destruct o as [[|x p]|]; try discriminate. split_binds. simpl in *. simplify_eq.
      eexists _, (Some (x :: p)), None, _, _. repeat split; eauto.
      * right; left. eexists; repeat split; eauto.
      * destruct self; simpl. by rewrite !orb_false_r, ?orb_true_r.
    + simpl in *. simplify_eq. eexists _, o, None, _, _. repeat split; eauto.
      destruct self; simpl. by rewrite Hp, !orb_false_r.
Qed.


(** [__call__] reads the record, redraws [_will_interact], runs [_apply],
    stores the string and the two flags, and resets the flags. *)
Lemma call_inv self data d' self' :
  AddRandomGuidanced.call self data = Some (d', self') →
  ∃ g discrepancy weight_map b r s self2,
    data !! AddRandomGuidanced.guidance self = Some g ∧
    AddRandomGuidanced._apply (AddRandomGuidanced.set_will_interact self b r)
      g discrepancy weight_map = Some (s, self2) ∧
    d' = <["is_neg"%string := PBool (AddRandomGuidanced.is_neg self2)]>
           (<["is_pos"%string := PBool (AddRandomGuidanced.is_pos self2)]>
              (<[AddRandomGuidanced.guidance self2 := PStr s]> data)) ∧
    self' = AddRandomGuidanced.set_is_neg
              (AddRandomGuidanced.set_is_pos self2 false) false.
Proof.
  unfold AddRandomGuidanced.call, AddRandomGuidanced.randomize. intros Hc.
  split_binds. case_match; try discriminate. split_binds. simplify_eq.
  eexists _, _, _, _, _, _, _. repeat split; eauto.
Qed.


Lemma call_inv' self data d' self' :
  PosNegClickProbAddRandomGuidanced.call self data = Some (d', self') →
  ∃ g discrepancy weight_map b r s self2,
    data !! PosNegClickProbAddRandomGuidanced.guidance self = Some g ∧
    PosNegClickProbAddRandomGuidanced._apply (PosNegClickProbAddRandomGuidanced.set_will_interact self b r)
      g discrepancy weight_map = Some (s, self2) ∧
    d' = <["is_neg"%string := PBool (PosNegClickProbAddRandomGuidanced.is_neg self2)]>
           (<["is_pos"%string := PBool (PosNegClickProbAddRandomGuidanced.is_pos self2)]>
              (<[PosNegClickProbAddRandomGuidanced.guidance self2 := PStr s]> data)) ∧
    self' = PosNegClickProbAddRandomGuidanced.set_is_neg
              (PosNegClickProbAddRandomGuidanced.set_is_pos self2 false) false.
Proof.
  unfold PosNegClickProbAddRandomGuidanced.call, PosNegClickProbAddRandomGuidanced.randomize. intros Hc.
  split_binds. case_match; try discriminate. split_binds. simplify_eq.
  eexists _, _, _, _, _, _, _. repeat split; eauto.
Qed.


End guidance_facts.

(** ** The guidance transforms *)

(** C5.  The sampling routine is written twice, once in each guidance
    transform; the two copies return the same result on every mask, weight
    map and random state. *)
Theorem C5_find_guidance_copies_agree `{Collaborators} (r : rng)
    (discrepancy : ndarray Q) (weight_map : option (ndarray Q)) :
  AddRandomGuidanced.find_guidance r discrepancy weight_map
  = PosNegClickProbAddRandomGuidanced.find_guidance r discrepancy weight_map.
Proof. reflexivity. Qed.





(** C9.  When the incoming guidance decodes to a pair of lists of equal
    length, the string [_apply] returns encodes a pair of lists of equal
    length again: nothing was added, or a positive point was added with a
    sentinel of its length on the negative side, or a negative point with
    a sentinel of its length on the positive side. *)
Theorem C9_apply_keeps_lists_parallel `{Collaborators} :
  let ints := λ rows : list (list Q), (λ pt : list Q, astype_int <$> pt) <$> rows in
  (∀ self g discrepancy weight_map s self' P N,
     AddRandomGuidanced.decode g = Some [P; N] →
     length P = length N →
     AddRandomGuidanced._apply self g discrepancy weight_map = Some (s, self') →
     ∃ P' N', s = json_dumps [P'; N'] ∧ length P' = length N' ∧
       ((P' = ints P ∧ N' = ints N)
        ∨ (∃ p, P' = ints P ++ [astype_int <$> p]
                ∧ N' = ints N ++ [replicate (length p) (-1)%Z])
        ∨ (∃ q, P' = ints P ++ [replicate (length q) (-1)%Z]
                ∧ N' = ints N ++ [astype_int <$> q])))
  ∧
  (∀ self g discrepancy weight_map s self' P N,
     PosNegClickProbAddRandomGuidanced.decode g = Some [P; N] →
     length P = length N →
     PosNegClickProbAddRandomGuidanced._apply self g discrepancy weight_map
       = Some (s, self') →
     ∃ P' N', s = json_dumps [P'; N'] ∧ length P' = length N' ∧
       ((P' = ints P ∧ N' = ints N)
        ∨ (∃ p, P' = ints P ++ [astype_int <$> p]
                ∧ N' = ints N ++ [replicate (length p) (-1)%Z])
        ∨ (∃ q, P' = ints P ++ [replicate (length q) (-1)%Z]
                ∧ N' = ints N ++ [astype_int <$> q]))).
Proof.
  intros ints.
  assert (Hsent : ∀ n, astype_int <$> replicate n (-1)%Q = replicate n (-1)%Z)
    by (intros n; by rewrite fmap_replicate).
  split; intros self g dv wv s self' P N Hdec Hlen Hap.
  - apply apply_inv in Hap as (G & pos & neg & r & G2 & HG & _ & Hcase & _ & -> & _).
    rewrite Hdec in HG. injection HG as <-.
    destruct Hcase as [(_ & _ & ->) | [(p & _ & _ & _ & Happ) | (q & _ & _ & _ & Happ)]].
    + exists (ints P), (ints N). split; [reflexivity|]. split; [|by left].
      unfold ints. by rewrite !length_fmap.
    + injection Happ as <-. simpl.
      exists (ints P ++ [astype_int <$> p]), (ints N ++ [replicate (length p) (-1)%Z]).
      split; [|split].
      * unfold map3, ints, AddRandomGuidanced.sentinel. simpl.
        rewrite !fmap_app. simpl. by rewrite Hsent.
      * unfold ints. rewrite !length_app, !length_fmap. simpl. lia.
      * right; left. by exists p.
    + injection Happ as <-. simpl.
      exists (ints P ++ [replicate (length q) (-1)%Z]), (ints N ++ [astype_int <$> q]).
      split; [|split].
      * unfold map3, ints, AddRandomGuidanced.sentinel. simpl.
        rewrite !fmap_app. simpl. by rewrite Hsent.
      * unfold ints. rewrite !length_app, !length_fmap. simpl. lia.
      * right; right. by exists q.
  - apply apply_inv' in Hap as (G & pos & neg & r & G2 & HG & _ & Hcase & _ & -> & _).
    rewrite Hdec in HG. injection HG as <-.
    destruct Hcase as [(_ & _ & ->) | [(p & _ & _ & _ & Happ) | (q & _ & _ & _ & Happ)]].
    + exists (ints P), (ints N). split; [reflexivity|]. split; [|by left].
      unfold ints. by rewrite !length_fmap.
    + injection Happ as <-. simpl.
      exists (ints P ++ [astype_int <$> p]), (ints N ++ [replicate (length p) (-1)%Z]).
      split; [|split].
      * unfold map3, ints, PosNegClickProbAddRandomGuidanced.sentinel. simpl.
        rewrite !fmap_app. simpl. by rewrite Hsent.
      * unfold ints. rewrite !length_app, !length_fmap. simpl. lia.
      * right; left. by exists p.
    + injection Happ as <-. simpl.
      exists (ints P ++ [replicate (length q) (-1)%Z]), (ints N ++ [astype_int <$> q]).
      split; [|split].
      * unfold map3, ints, PosNegClickProbAddRandomGuidanced.sentinel. simpl.
        rewrite !fmap_app. simpl. by rewrite Hsent.
      * unfold ints. rewrite !length_app, !length_fmap. simpl. lia.
      * right; right. by exists q.
Qed.

Lemma C9_witness :
  let ints := λ rows : list (list Q), (λ pt : list Q, astype_int <$> pt) <$> rows in
  let P := [[7; 1; 1; 1]]%Q in
  let N := [[-1; -1; -1; -1]]%Q in
  let self := AddRandomGuidanced.set_will_interact Samples.add_random true 1 in
  let self' := AddRandomGuidanced.set_is_pos (AddRandomGuidanced.set_R self 2) true in
  AddRandomGuidanced.decode (H:=Reference.collaborators) Samples.as_string
  = Some [P; N]
  ∧ length P = length N
  ∧ AddRandomGuidanced._apply self Samples.as_string Samples.discrepancy None
    = Some (Samples.two_clicks, self')
  ∧ ∃ P' N', Samples.two_clicks
             = json_dumps (Collaborators:=Reference.collaborators) [P'; N'] ∧ length P' = length N' ∧
      ((P' = ints P ∧ N' = ints N)
       ∨ (∃ p, P' = ints P ++ [astype_int <$> p]
               ∧ N' = ints N ++ [replicate (length p) (-1)%Z])
       ∨ (∃ q, P' = ints P ++ [replicate (length q) (-1)%Z]
               ∧ N' = ints N ++ [astype_int <$> q])).
Proof.
  intros ints P N self self'.
  assert (Hdec : AddRandomGuidanced.decode (H:=Reference.collaborators)
                   Samples.as_string = Some [P; N]) by reflexivity.
  assert (Hap : AddRandomGuidanced._apply self Samples.as_string
                  Samples.discrepancy None = Some (Samples.two_clicks, self'))
    by reflexivity.
  split; [exact Hdec|]. split; [reflexivity|]. split; [exact Hap|].
  exact (proj1 (C9_apply_keeps_lists_parallel (H:=Reference.collaborators))
           self Samples.as_string Samples.discrepancy None _ _ P N Hdec eq_refl Hap).
Defined.



(** ** Blocks of an array along axis 0 *)


Lemma zero_block_lookup (a : ndarray Q) (n j : nat) :
  (n + 1) * size_of (tail (shape a)) ≤ length (data a) →
  data (zero_block a n) !! j =
    if decide (n * size_of (tail (shape a)) ≤ j < (n + 1) * size_of (tail (shape a)))
    then Some 0%Q else data a !! j.
Proof.
  intros Hlen. unfold zero_block. simpl.
  set (cs := size_of (tail (shape a))) in *.
  destruct (decide (j < n * cs)) as [Hlt|Hge].
  - rewrite lookup_app_l by (rewrite length_take; lia).
    rewrite lookup_take_lt by lia. case_decide; [lia|done].
  - rewrite lookup_app_r by (rewrite length_take; lia).
    rewrite length_take, Nat.min_l by lia.
    destruct (decide (j < (n + 1) * cs)) as [Hin|Hout].
    + rewrite lookup_app_l by (rewrite length_replicate; lia).
      rewrite decide_True by lia. apply lookup_replicate_2. lia.
    + rewrite lookup_app_r by (rewrite length_replicate; lia).
      rewrite length_replicate, lookup_drop, decide_False by lia.
      f_equal. lia.
Qed.

Lemma zero_block_length (a : ndarray Q) (n : nat) :
  (n + 1) * size_of (tail (shape a)) ≤ length (data a) →
  length (data (zero_block a n)) = length (data a).
Proof.
  intros Hlen. unfold zero_block. simpl.
  rewrite !length_app, length_take, length_replicate, length_drop. lia.
Qed.






(** ** DiscardAddGuidanced *)



(** ** SingleLabelSingleModalityd *)

Section single_label_single_modality.
Import SingleLabelSingleModalityd.

Lemma foldl_Qmax_indicator (q : Q) (l : list Q) :
  (q = 0%Q ∨ q = 1%Q) → Forall (λ x, x = 0%Q ∨ x = 1%Q) l →
  foldl Qmax q l = 0%Q ∨ foldl Qmax q l = 1%Q.
Proof.
  intros Hq Hl. revert q Hq. induction Hl as [|x l Hx _ IH]; intros q Hq; [done|].
  simpl. apply IH. unfold Qmax. by destruct (Qle_bool q x).
Qed.

Lemma foreground_max (a : ndarray Q) (mx : Q) :
  np_max (data a) = Some mx →
  ∃ mx', np_max (data (foreground a)) = Some mx' ∧ Qgt1 mx' = false.
Proof.
  unfold foreground, np_max. simpl. destruct (data a) as [|q l]; [done|]. intros _.
  rewrite fmap_cons. eexists. split; [reflexivity|].
  match goal with |- Qgt1 ?t = false => assert (Ht : t = 0%Q ∨ t = 1%Q) end.
  { apply foldl_Qmax_indicator.
    - destruct (Qpositive q); auto.
    - apply Forall_fmap, Forall_forall. intros x _. simpl.
      destruct (Qpositive x); auto. }
  destruct Ht as [-> | ->]; reflexivity.
Qed.

Lemma patch_pixdim (m m' : meta_dict) :
  patch m = Some m' → pixdim m' !! 4 = Some 0%Q.
Proof.
  unfold patch, set_index. intros Hp.
  destruct (decide (4 < length (pixdim m))); [|discriminate]. simpl in Hp.
  destruct (decide (0 < length (dim m))); [|discriminate]. simpl in Hp.
  destruct (decide (4 < length (<[0:=3%Z]> (dim m)))); [|discriminate].
  injection Hp as <-. simpl.
  by apply list_lookup_insert_eq.
Qed.

Lemma label_branch_quiet (s s' : record * heap) :
  label_branch "label" s = Some s' → quiet_label s'.
Proof.
  destruct s as [d h]. unfold label_branch, get_meta, get_array. intros Hb.
  destruct (d !! "label_meta_dict"%string) as [[| | | | |l]|] eqn:Hmeta;
    try discriminate. simpl in Hb.
  destruct (h !! l) as [m|] eqn:Hl; [|discriminate]. simpl in Hb.
  destruct (d !! "label"%string) as [[| | | |a|]|] eqn:Hlab; try discriminate.
  simpl in Hb.
  destruct (np_max (data a)) as [mx|] eqn:Hmax; [|discriminate]. simpl in Hb.
  destruct (Qgt1 mx) eqn:Hgt.
  - destruct (patch m) as [m'|] eqn:Hp; [|discriminate]. injection Hb as <-.
    destruct (foreground_max a mx Hmax) as (mx' & Hmx' & Hle).
    exists l, m', (foreground a), mx'. simpl.
    rewrite lookup_insert_ne by done. rewrite !lookup_insert_eq. done.
  - injection Hb as <-. by exists l, m, a, mx.
Qed.

Lemma image_branch_quiet (s s' : record * heap) :
  image_branch "image" s = Some s' → quiet_image s'.
Proof.
  destruct s as [d h]. unfold image_branch, get_meta, get_array. intros Hb.
  destruct (d !! "image_meta_dict"%string) as [[| | | | |l]|] eqn:Hmeta;
    try discriminate. simpl in Hb.
  destruct (h !! l) as [m|] eqn:Hl; [|discriminate]. simpl in Hb.
  destruct (pixdim m !! 4) as [p4|] eqn:Hp4; [|discriminate]. simpl in Hb.
  destruct (Qpositive p4) eqn:Hpos.
  - destruct (d !! "image"%string) as [[| | | |a|]|]; try discriminate. simpl in Hb.
    destruct (take_last0 a) as [a'|]; [|discriminate]. simpl in Hb.
    destruct (patch m) as [m'|] eqn:Hp; [|discriminate]. injection Hb as <-.
    exists l, m', 0%Q. simpl. rewrite lookup_insert_ne by done.
    rewrite lookup_insert_eq. by erewrite patch_pixdim.
  - injection Hb as <-. by exists l, m, p4.
Qed.

Lemma quiet_label_fixed (s : record * heap) :
  quiet_label s → label_branch "label" s = Some s.
Proof.
  destruct s as [d h]. intros (l & m & a & mx & Hmeta & Hl & Hlab & Hmax & Hgt).
  simpl in *. unfold label_branch, get_meta, get_array.
  rewrite Hmeta. simpl. rewrite Hl. simpl. rewrite Hlab. simpl. rewrite Hmax. simpl.
  by rewrite Hgt.
Qed.

Lemma quiet_image_fixed (s : record * heap) :
  quiet_image s → image_branch "image" s = Some s.
Proof.
  destruct s as [d h]. intros (l & m & p4 & Hmeta & Hl & Hp4 & Hpos).
  simpl in *. unfold image_branch, get_meta.
  rewrite Hmeta. simpl. rewrite Hl. simpl. rewrite Hp4. simpl. by rewrite Hpos.
Qed.

(** a branch that runs on one key leaves the other key quiet: it writes
    its own array, and zero into [pixdim[4]] of its metadata, which may be
    the metadata of the other key *)
Lemma image_branch_keeps_label (s s' : record * heap) :
  quiet_label s → image_branch "image" s = Some s' → quiet_label s'.
Proof.
  destruct s as [d h]. intros (l & m & a & mx & Hmeta & Hl & Hlab & Hmax & Hgt).
  simpl in *. unfold image_branch, get_meta, get_array. intros Hb.
  destruct (d !! "image_meta_dict"%string) as [[| | | | |l']|];
    try discriminate. simpl in Hb.
  destruct (h !! l') as [m'|]; [|discriminate]. simpl in Hb.
  destruct (pixdim m' !! 4) as [p4|]; [|discriminate]. simpl in Hb.
  destruct (Qpositive p4).
  - destruct (d !! "image"%string) as [[| | | |a'|]|]; try discriminate. simpl in Hb.
    destruct (take_last0 a') as [a''|]; [|discriminate]. simpl in Hb.
    destruct (patch m') as [m''|]; [|discriminate]. injection Hb as <-.
    destruct (decide (l' = l)) as [->|Hne].
    + exists l, m'', a, mx. simpl.
      split; [by rewrite lookup_insert_ne by done|].
      split; [by rewrite lookup_insert_eq|].
      split; [by rewrite lookup_insert_ne by done|done].
    + exists l, m, a, mx. simpl.
      split; [by rewrite lookup_insert_ne by done|].
      split; [by rewrite lookup_insert_ne by done|].
      split; [by rewrite lookup_insert_ne by done|done].
  - injection Hb as <-. by exists l, m, a, mx.
Qed.

Lemma label_branch_keeps_image (s s' : record * heap) :
  quiet_image s → label_branch "label" s = Some s' → quiet_image s'.
Proof.
  destruct s as [d h]. intros (l & m & p4 & Hmeta & Hl & Hp4 & Hpos).
  simpl in *. unfold label_branch, get_meta, get_array. intros Hb.
  destruct (d !! "label_meta_dict"%string) as [[| | | | |l']|];
    try discriminate. simpl in Hb.
  destruct (h !! l') as [m'|]; [|discriminate]. simpl in Hb.
  destruct (d !! "label"%string) as [[| | | |a|]|]; try discriminate. simpl in Hb.
  destruct (np_max (data a)) as [mx|]; [|discriminate]. simpl in Hb.
  destruct (Qgt1 mx).
  - destruct (patch m') as [m''|] eqn:Hp; [|discriminate]. injection Hb as <-.
    destruct (decide (l' = l)) as [->|Hne].
    + exists l, m'', 0%Q. simpl.
      split; [by rewrite lookup_insert_ne by done|].
      split; [by rewrite lookup_insert_eq|].
      split; [by erewrite patch_pixdim|done].
    + exists l, m, p4. simpl.
      split; [by rewrite lookup_insert_ne by done|].
      split; [by rewrite lookup_insert_ne by done|done].
  - injection Hb as <-. by exists l, m, p4.
Qed.

Lemma step_quiet (key : string) (s s' : record * heap) :
  step key s = Some s' →
  (quiet_label s → quiet_label s') ∧ (quiet_image s → quiet_image s') ∧
  (key = "label"%string → quiet_label s') ∧ (key = "image"%string → quiet_image s').
Proof.
  unfold step. intros Hs.
  destruct (decide (key = "label"%string)) as [->|Hl].
  - destruct (label_branch "label" s) as [s1|] eqn:Hb; [|discriminate].
    simpl in Hs. injection Hs as <-.
    repeat split; intros; eauto using label_branch_quiet, label_branch_keeps_image.
    discriminate.
  - simpl in Hs. destruct (decide (key = "image"%string)) as [->|Hi].
    + repeat split; intros; eauto using image_branch_quiet, image_branch_keeps_label.
      discriminate.
    + injection Hs as <-. repeat split; auto; intros; done.
Qed.

Lemma call_keys_quiet (ks : list string) (s s' : record * heap) :
  call_keys ks s = Some s' →
  (quiet_label s → quiet_label s') ∧ (quiet_image s → quiet_image s') ∧
  ("label"%string ∈ ks → quiet_label s') ∧ ("image"%string ∈ ks → quiet_image s').
Proof.
  revert s. induction ks as [|key ks IH]; intros s Hc; simpl in Hc.
  - injection Hc as <-. repeat split; auto; intros Hin; by apply elem_of_nil in Hin.
  - destruct (step key s) as [s1|] eqn:Hs; [|discriminate]. simpl in Hc.
    destruct (step_quiet _ _ _ Hs) as (Hl & Hi & Hkl & Hki).
    destruct (IH _ Hc) as (Hl' & Hi' & Hml & Hmi).
    repeat split; auto.
    + intros [Heq|Hin]%elem_of_cons; [subst key|]; auto.
    + intros [Heq|Hin]%elem_of_cons; [subst key|]; auto.
Qed.

Lemma call_keys_fixed (ks : list string) (s : record * heap) :
  ("label"%string ∈ ks → quiet_label s) →
  ("image"%string ∈ ks → quiet_image s) →
  call_keys ks s = Some s.
Proof.
  induction ks as [|key ks IH]; intros Hl Hi; [done|]. simpl.
  assert (Hs : step key s = Some s).
  { unfold step. destruct (decide (key = "label"%string)) as [->|Hkl].
    - rewrite quiet_label_fixed by (apply Hl; left). reflexivity.
    - simpl. destruct (decide (key = "image"%string)) as [->|Hki]; [|done].
      apply quiet_image_fixed, Hi. left. }
  rewrite Hs. simpl. apply IH; intros; [apply Hl | apply Hi]; by right.
Qed.

End single_label_single_modality.

(** C7.  Applying the transform to what it returned changes nothing: if
    a call returns a record (and heap), a second call on them returns
    the same record and heap.  After the first call the label, when
    "label" is a key, has no value above 1, and [pixdim[4]] of the image
    metadata, when "image" is a key, is not positive, so neither branch
    is entered again. *)
Theorem C7_single_label_single_modality_idempotent
    (keys : list string) (d d1 : gmap string pyval)
    (h h1 : gmap loc SingleLabelSingleModalityd.meta_dict) :
  SingleLabelSingleModalityd.call keys d h = Some (d1, h1) →
  SingleLabelSingleModalityd.call keys d1 h1 = Some (d1, h1) ∧
  ("label"%string ∈ keys →
     ∃ a mx, d1 !! "label"%string = Some (PArray a) ∧
       np_max (data a) = Some mx ∧ (mx <= 1)%Q) ∧
  ("image"%string ∈ keys →
     ∃ l m p4, d1 !! "image_meta_dict"%string = Some (PDict l) ∧
       h1 !! l = Some m ∧
       SingleLabelSingleModalityd.pixdim m !! 4 = Some p4 ∧ (p4 <= 0)%Q).
Proof.
  unfold SingleLabelSingleModalityd.call. intros Hc.
  destruct (call_keys_quiet _ _ _ Hc) as (_ & _ & Hl & Hi).
  split; [by apply call_keys_fixed|]. split.
  - intros Hin. destruct (Hl Hin) as (l & m & a & mx & _ & _ & Hlab & Hmax & Hgt).
    exists a, mx. repeat split; auto.
    unfold SingleLabelSingleModalityd.Qgt1 in Hgt.
    apply negb_false_iff in Hgt. by apply Qle_bool_iff.
  - intros Hin. destruct (Hi Hin) as (l & m & p4 & Hmeta & Hh & Hp4 & Hpos).
    exists l, m, p4. repeat split; auto.
    unfold Qpositive in Hpos. apply Z.ltb_ge in Hpos.
    unfold Qle. simpl. lia.
Qed.

Lemma C7_witness :
  let keys := ["image"; "label"]%string in
  SingleLabelSingleModalityd.call keys Samples.volumes Samples.metadata
  = Some (Samples.single_volumes, Samples.single_metadata) ∧
  SingleLabelSingleModalityd.call keys Samples.single_volumes Samples.single_metadata
  = Some (Samples.single_volumes, Samples.single_metadata) ∧
  ("label"%string ∈ keys →
     ∃ a mx, Samples.single_volumes !! "label"%string = Some (PArray a) ∧
       np_max (data a) = Some mx ∧ (mx <= 1)%Q) ∧
  ("image"%string ∈ keys →
     ∃ l m p4, Samples.single_volumes !! "image_meta_dict"%string = Some (PDict l) ∧
       Samples.single_metadata !! l = Some m ∧
       SingleLabelSingleModalityd.pixdim m !! 4 = Some p4 ∧ (p4 <= 0)%Q).
Proof.
  intros keys.
  assert (E : SingleLabelSingleModalityd.call keys Samples.volumes Samples.metadata
              = Some (Samples.single_volumes, Samples.single_metadata))
    by (vm_compute; reflexivity).
  split; [exact E|].
  exact (C7_single_label_single_modality_idempotent keys _ _ _ _ E).
Defined.

(** ** The sampling routine *)

Section sampling_facts.

Lemma Qpositive_iff (q : Q) : Qpositive q = true ↔ (0 < q)%Q.
Proof.
  unfold Qpositive, Qlt. simpl. rewrite Z.ltb_lt. lia.
Qed.


Lemma elem_of_where_from {A} (f : A → bool) (k i : nat) (l : list A) :
  i ∈ where_from f k l ↔ ∃ j x, i = k + j ∧ l !! j = Some x ∧ f x = true.
Proof.
  revert k. induction l as [|y l IH]; intros k; simpl.
  - split; [by intros ?%elem_of_nil | by intros (j & x & _ & ? & _)].
  - assert (Htl : i ∈ where_from f (S k) l ↔
                  ∃ j x, i = k + S j ∧ l !! j = Some x ∧ f x = true).
    { rewrite IH. split; intros (j & x & -> & ? & ?); exists j, x;
        repeat split; auto; lia. }
    destruct (f y) eqn:Hy.
    + rewrite elem_of_cons, Htl. split.
      * intros [-> | (j & x & -> & ? & ?)].
        -- exists 0, y. repeat split; auto.
        -- exists (S j), x. repeat split; auto.
      * intros ([|j] & x & -> & Hx & Hf).
        -- left. lia.
        -- right. exists j, x. repeat split; auto.
    + rewrite Htl. split.
      * intros (j & x & -> & ? & ?). exists (S j), x. repeat split; auto.
      * intros ([|j] & x & -> & Hx & Hf).
        -- simpl in Hx. injection Hx as ->. congruence.
        -- exists j, x. repeat split; auto.
Qed.

Lemma elem_of_where_positive (i : nat) (l : list Q) :
  i ∈ where_positive l ↔ ∃ q, l !! i = Some q ∧ (0 < q)%Q.
Proof.
  unfold where_positive. rewrite elem_of_where_from. split.
  - intros (j & x & -> & Hx & Hf). exists x. split; [done|by apply Qpositive_iff].
  - intros (q & Hq & Hpos). exists i, q. repeat split; auto. by apply Qpositive_iff.
Qed.




Lemma length_unravel_index (i : nat) (s : list nat) :
  length (unravel_index i s) = length s.
Proof. revert i. induction s as [|n s IH]; intros i; simpl; [done|by rewrite IH]. Qed.

End sampling_facts.

Section sampling_steps.
Context `{Collaborators}.


End sampling_steps.



(** C2, as the code has it.  The point [find_guidance] returns has one
    component for each axis of the mask.  Its components from 1 on are
    those of the multi-index of the sampled seed, and the seed is a voxel
    of the mask with a value above 0.  Component 0 is not the index of
    that voxel along axis 0: [g[0] = dst[0]] puts the (weighted) distance
    at the seed there. *)
Theorem C2_point_is_seed_index_with_distance `{Collaborators}
    (r r' : rng) (mask : ndarray Q) (weight_map : option (ndarray Q))
    (g : list Q) :
  choice_sound →
  AddRandomGuidanced.find_guidance r mask weight_map = Some (Some g, r') →
  ∃ seed q wd dst,
    data mask !! seed = Some q ∧ (0 < q)%Q ∧
    AddRandomGuidanced.weighted (distance_transform_cdt mask) weight_map = Some wd ∧
    wd !! seed = Some dst ∧
    length g = length (shape mask) ∧
    head g = Some dst ∧
    tail g = (λ k, inject_Z (Z.of_nat k)) <$> tail (unravel_index seed (shape mask)).
Proof.
  intros Hsound. unfold AddRandomGuidanced.find_guidance. intros Hfg.
  destruct (AddRandomGuidanced.weighted _ _) as [wd|]; [|discriminate].
  simpl in Hfg. case_decide; [|discriminate].
  destruct (mapM _ _) as [w|]; [|discriminate]. simpl in Hfg.
  destruct (R_choice r _ _) as [[seed r1]|] eqn:Hch; [|discriminate]. simpl in Hfg.
  destruct (wd !! seed) as [dst|] eqn:Hdst; [|discriminate]. simpl in Hfg.
  destruct (unravel_index seed (shape mask)) as [|x g'] eqn:Hun; [discriminate|].
  injection Hfg as <- <-.
  apply Hsound, elem_of_where_positive in Hch as (q & Hq & Hpos).
  exists seed, q, wd, dst. repeat split; auto.
  - rewrite <- (length_unravel_index seed), Hun. simpl. by rewrite length_fmap.
  - by rewrite Hun.
Qed.

(** ** The reference collaborators obey the laws *)

Section reference_laws.
Import Reference.

Lemma pick_sound : choice_sound (H:=collaborators).
Proof.
  intros A r r' a p x. simpl. unfold pick. intros Hp.
  destruct (a !! (r mod length a)) as [y|] eqn:Hy; [|discriminate].
  simpl in Hp. injection Hp as <- _. apply list_elem_of_lookup. eauto.
Qed.







End reference_laws.

Lemma C2_witness :
  choice_sound (H:=Reference.collaborators) ∧
  AddRandomGuidanced.find_guidance (H:=Reference.collaborators) 1 Samples.mask None
  = Some (Some [2; 0; 0; 2]%Q, 2) ∧
  ∃ seed q wd dst,
    data Samples.mask !! seed = Some q ∧ (0 < q)%Q ∧
    AddRandomGuidanced.weighted
      (distance_transform_cdt (Collaborators:=Reference.collaborators) Samples.mask)
      None = Some wd ∧
    wd !! seed = Some dst ∧
    length [2; 0; 0; 2]%Q = length (shape Samples.mask) ∧
    head [2; 0; 0; 2]%Q = Some dst ∧
    tail [2; 0; 0; 2]%Q
    = (λ k, inject_Z (Z.of_nat k)) <$> tail (unravel_index seed (shape Samples.mask)).
Proof.
  assert (E : AddRandomGuidanced.find_guidance (H:=Reference.collaborators)
                1 Samples.mask None = Some (Some [2; 0; 0; 2]%Q, 2)) by reflexivity.
  split; [exact pick_sound|]. split; [exact E|].
  exact (C2_point_is_seed_index_with_distance (H:=Reference.collaborators)
           1 2 Samples.mask None _ pick_sound E).
Defined.

(** C2 as stated fails.  On the mask [[[[0, 1, 1]]]] the seed drawn is the
    voxel (0, 0, 0, 2), at distance 2 from the zero voxel; the point
    returned is [2, 0, 0, 2], which is the multi-index of no voxel of the
    mask. *)
Lemma C2_counterexample :
  AddRandomGuidanced.find_guidance (H:=Reference.collaborators) 1 Samples.mask None
  = Some (Some [2; 0; 0; 2]%Q, 2) ∧
  SamplingSpec.pick_seed (H:=Reference.collaborators) 1 Samples.mask = Some (2, 2) ∧
  unravel_index 2 (shape Samples.mask) = [0; 0; 0; 2] ∧
  ∀ seed, seed < length (data Samples.mask) →
    [2; 0; 0; 2]%Q
    ≠ (λ k, inject_Z (Z.of_nat k)) <$> unravel_index seed (shape Samples.mask).
Proof.
  split; [reflexivity|]. split; [reflexivity|]. split; [reflexivity|].
  intros seed Hlt. simpl in Hlt.
  destruct seed as [|[|[|seed]]]; [discriminate..|lia].
Qed.

(** ** The sampling distribution *)

Section distribution_facts.
Open Scope R_scope.








End distribution_facts.





(** * Further properties of the transforms *)

(** ** DiscardAddGuidanced: the record *)

Section discard_record.
Context `{Collaborators}.

Lemma discard_call_keys_frame (self : DiscardAddGuidanced.t) (ks : list string)
    (st st' : rng) (d d' : gmap string pyval) :
  DiscardAddGuidanced.call_keys self ks st d = Some (d', st') →
  (∀ k, k ≠ "image"%string → d' !! k = d !! k) ∧
  (is_Some (d' !! "image"%string) ↔ is_Some (d !! "image"%string)).
Proof.
  revert st d. induction ks as [|key ks IH]; intros st d Hc; simpl in Hc.
  - injection Hc as <- <-. done.
  - destruct (d !! key) as [v|] eqn:Hv.
    + destruct (decide (key = "image"%string)) as [->|Hne].
      * destruct v as [| | | |image|]; try discriminate.
        destruct (DiscardAddGuidanced._apply self st image) as [[image' st1]|];
          [|discriminate]. simpl in Hc.
        destruct (IH _ _ Hc) as [Hother Himg]. split.
        -- intros k Hk. rewrite Hother by done. by rewrite lookup_insert_ne.
        -- rewrite Himg, lookup_insert_eq, Hv. split; eauto.
      * exact (IH _ _ Hc).
    + destruct (DiscardAddGuidanced.allow_missing_keys self); [|discriminate].
      exact (IH _ _ Hc).
Qed.

End discard_record.

(** X1.  [DiscardAddGuidanced.__call__] changes no entry of the record
    but "image", and adds none: a returned record has an "image" exactly
    when the input has one. *)
Theorem discard_call_touches_only_image `{Collaborators}
    (self : DiscardAddGuidanced.t) (st st' : rng) (d d' : gmap string pyval) :
  DiscardAddGuidanced.call self st d = Some (d', st') →
  (∀ k, k ≠ "image"%string → d' !! k = d !! k) ∧
  (is_Some (d' !! "image"%string) ↔ is_Some (d !! "image"%string)).
Proof. apply discard_call_keys_frame. Qed.

Lemma discard_call_touches_only_image_witness :
  let d := <["label"%string := PBool true]>
             (<["image"%string := PArray Samples.image]> ∅) in
  let d' := <["image"%string := PArray (NdArray [3; 1; 1; 2] [5; 6; 0; 0; 0; 0]%Q)]> d in
  DiscardAddGuidanced.call (H:=Reference.collaborators) Samples.discard 0 d
  = Some (d', 0) ∧
  (∀ k, k ≠ "image"%string → d' !! k = d !! k) ∧
  (is_Some (d' !! "image"%string) ↔ is_Some (d !! "image"%string)).
Proof.
  intros d d'.
  assert (E : DiscardAddGuidanced.call (H:=Reference.collaborators)
                Samples.discard 0 d = Some (d', 0)) by (vm_compute; reflexivity).
  split; [exact E|].
  exact (discard_call_touches_only_image (H:=Reference.collaborators) _ _ _ _ _ E).
Defined.

(** X2.  A key of the transform that the record lacks is a KeyError, at
    whatever place it stands among the keys, unless [allow_missing_keys]
    is set. *)
Theorem discard_call_missing_key `{Collaborators}
    (self : DiscardAddGuidanced.t) (st : rng) (d : gmap string pyval)
    (key : string) :
  DiscardAddGuidanced.allow_missing_keys self = false →
  key ∈ DiscardAddGuidanced.keys self →
  d !! key = None →
  DiscardAddGuidanced.call self st d = None.
Proof.
  intros Hallow Hin Hmiss. unfold DiscardAddGuidanced.call.
  revert st d Hmiss.
  induction (DiscardAddGuidanced.keys self) as [|k ks IH]; intros st d Hmiss.
  - by apply elem_of_nil in Hin.
  - simpl. apply elem_of_cons in Hin as [<- | Hin].
    + by rewrite Hmiss, Hallow.
    + destruct (d !! k) as [v|] eqn:Hv; [|by rewrite Hallow].
      destruct (decide (k = "image"%string)) as [->|Hne]; [|by apply IH].
      destruct v as [| | | |image|]; try done.
      destruct (DiscardAddGuidanced._apply self st image) as [[image' st1]|];
        [|done]. simpl. apply IH; [done|].
      rewrite lookup_insert_ne; [done|]. intros <-. congruence.
Qed.

Lemma discard_call_missing_key_witness :
  let self := {| DiscardAddGuidanced.keys := ["image"; "label"]%string;
                 DiscardAddGuidanced.number_intensity_ch := 1;
                 DiscardAddGuidanced.discard_probability := 1;
                 DiscardAddGuidanced.allow_missing_keys := false |} in
  let d : gmap string pyval := <["image"%string := PArray Samples.image]> ∅ in
  DiscardAddGuidanced.allow_missing_keys self = false ∧
  "label"%string ∈ DiscardAddGuidanced.keys self ∧
  d !! "label"%string = None ∧
  DiscardAddGuidanced.call (H:=Reference.collaborators) self 0 d = None.
Proof.
  intros self d.
  assert (Hin : "label"%string ∈ DiscardAddGuidanced.keys self)
    by (right; left).
  split; [reflexivity|]. split; [exact Hin|]. split; [reflexivity|].
  exact (discard_call_missing_key (H:=Reference.collaborators)
           self 0 d "label" eq_refl Hin eq_refl).
Defined.

(** X3.  With [allow_missing_keys] a record without "image" comes back as
    it is, and no random number is drawn, whatever the keys and the
    discard probability. *)
Theorem discard_call_without_image `{Collaborators}
    (self : DiscardAddGuidanced.t) (st : rng) (d : gmap string pyval) :
  DiscardAddGuidanced.allow_missing_keys self = true →
  d !! "image"%string = None →
  DiscardAddGuidanced.call self st d = Some (d, st).
Proof.
  intros Hallow Hmiss. unfold DiscardAddGuidanced.call.
  induction (DiscardAddGuidanced.keys self) as [|k ks IH]; [done|]. simpl.
  destruct (d !! k) as [v|] eqn:Hv; [|by rewrite Hallow].
  destruct (decide (k = "image"%string)) as [->|Hne]; [congruence|done].
Qed.

Lemma discard_call_without_image_witness :
  let self := {| DiscardAddGuidanced.keys := ["image"; "label"]%string;
                 DiscardAddGuidanced.number_intensity_ch := 1;
                 DiscardAddGuidanced.discard_probability := 1 # 2;
                 DiscardAddGuidanced.allow_missing_keys := true |} in
  let d : gmap string pyval := <["label"%string := PBool true]> ∅ in
  DiscardAddGuidanced.allow_missing_keys self = true ∧
  d !! "image"%string = None ∧
  DiscardAddGuidanced.call (H:=Reference.collaborators) self 0 d = Some (d, 0).
Proof.
  intros self d. split; [reflexivity|]. split; [reflexivity|].
  exact (discard_call_without_image (H:=Reference.collaborators)
           self 0 d eq_refl eq_refl).
Defined.

(** ** DiscardAddGuidanced: applying it again *)

Section discard_again.
Context `{Collaborators}.

Lemma discard_apply_volume (self : DiscardAddGuidanced.t) (st : rng)
    (c : nat) (s : list nat) (dat : list Q) :
  length s = 3 →
  Qle_bool 1 (DiscardAddGuidanced.discard_probability self) = true →
  DiscardAddGuidanced._apply self st (NdArray (c :: s) dat) =
    Some (if decide (c = DiscardAddGuidanced.number_intensity_ch self + 2)
          then zero_block
                 (zero_block (NdArray (c :: s) dat)
                    (DiscardAddGuidanced.number_intensity_ch self))
                 (DiscardAddGuidanced.number_intensity_ch self + 1)
          else NdArray (S (S c) :: s)
                 (dat ++ replicate (size_of s) 0%Q ++ replicate (size_of s) 0%Q),
          st).
Proof.
  intros Hs Hp. destruct s as [|h [|w [|d [|]]]]; try discriminate.
  unfold DiscardAddGuidanced._apply. rewrite Hp. simpl.
  replace (h * (w * (d * 1)) + 0) with (h * (w * (d * 1))) by lia.
  destruct (decide (c = _)) as [->|Hc].
  - by rewrite decide_True.
  - rewrite decide_False; [done|]. intros [=]. done.
Qed.

Lemma ndarray_eq {A} (a b : ndarray A) :
  shape a = shape b → data a = data b → a = b.
Proof. destruct a, b. simpl. by intros -> ->. Qed.

(** two neighbouring blocks set to zero *)
Lemma zero_blocks_lookup (a : ndarray Q) (n j : nat) :
  (n + 2) * size_of (tail (shape a)) ≤ length (data a) →
  data (zero_block (zero_block a n) (n + 1)) !! j =
    if decide (n * size_of (tail (shape a)) ≤ j < (n + 2) * size_of (tail (shape a)))
    then Some 0%Q else data a !! j.
Proof.
  intros Hlen.
  assert (Hl1 : length (data (zero_block a n)) = length (data a))
    by (apply zero_block_length; lia).
  rewrite zero_block_lookup
    by (rewrite Hl1; change (shape (zero_block a n)) with (shape a); lia).
  change (shape (zero_block a n)) with (shape a).
  rewrite zero_block_lookup by lia.
  repeat case_decide; (done || lia).
Qed.

Lemma zero_blocks_length (a : ndarray Q) (n : nat) :
  (n + 2) * size_of (tail (shape a)) ≤ length (data a) →
  length (data (zero_block (zero_block a n) (n + 1))) = length (data a).
Proof.
  intros Hlen.
  assert (Hl1 : length (data (zero_block a n)) = length (data a))
    by (apply zero_block_length; lia).
  rewrite zero_block_length; [done|].
  rewrite Hl1. change (shape (zero_block a n)) with (shape a). lia.
Qed.

Lemma zero_block_twice (a : ndarray Q) (n : nat) :
  (n + 2) * size_of (tail (shape a)) ≤ length (data a) →
  zero_block (zero_block (zero_block (zero_block a n) (n + 1)) n) (n + 1)
  = zero_block (zero_block a n) (n + 1).
Proof.
  intros Hlen. apply ndarray_eq; [done|]. apply list_eq. intros j.
  rewrite zero_blocks_lookup by (by rewrite zero_blocks_length).
  change (shape (zero_block (zero_block a n) (n + 1))) with (shape a).
  case_decide; [|done]. rewrite zero_blocks_lookup by done.
  by rewrite decide_True.
Qed.

Lemma zero_block_appended (n : nat) (s : list nat) (dat : list Q) :
  length dat = n * size_of s →
  zero_block
    (zero_block
       (NdArray (S (S n) :: s)
          (dat ++ replicate (size_of s) 0%Q ++ replicate (size_of s) 0%Q)) n)
    (n + 1)
  = NdArray (S (S n) :: s)
      (dat ++ replicate (size_of s) 0%Q ++ replicate (size_of s) 0%Q).
Proof.
  intros Hlen. apply ndarray_eq; [done|]. apply list_eq. intros j.
  rewrite zero_blocks_lookup
    by (simpl; rewrite !length_app, !length_replicate; lia).
  simpl. case_decide; [|done].
  rewrite lookup_app_r by lia. rewrite <- replicate_add.
  symmetry. apply lookup_replicate_2. lia.
Qed.

End discard_again.

(** X4.  With [discard_probability >= 1.0], on a (C, H, W, D) image:
    when C is [number_intensity_ch] or [number_intensity_ch + 2],
    applying [_apply] to its own result gives that result again (the
    guidance channels are appended once and then only zeroed); for any
    other C every application appends two more channels. *)
Theorem discard_apply_again `{Collaborators}
    (self : DiscardAddGuidanced.t) (st : rng) (image image1 : ndarray Q) :
  (1 <= DiscardAddGuidanced.discard_probability self)%Q →
  ndim image = 4 → wf image →
  DiscardAddGuidanced._apply self st image = Some (image1, st) →
  let n := DiscardAddGuidanced.number_intensity_ch self in
  ((head (shape image) = Some n ∨ head (shape image) = Some (n + 2)) →
     DiscardAddGuidanced._apply self st image1 = Some (image1, st)) ∧
  (∀ c, head (shape image) = Some c → c ≠ n → c ≠ n + 2 →
     ∃ image2, DiscardAddGuidanced._apply self st image1 = Some (image2, st) ∧
       head (shape image2) = Some (c + 4) ∧
       tail (shape image2) = tail (shape image)).
Proof.
  intros Hprob Hdim Hwf Hap n. apply Qle_bool_iff in Hprob.
  destruct image as [sh dat]. unfold ndim in Hdim. simpl in *.
  destruct sh as [|c s]; [discriminate|].
  assert (Hs : length s = 3) by (simpl in Hdim; lia).
  rewrite discard_apply_volume in Hap by done. fold n in Hap.
  assert (Hlen : length dat = c * size_of s) by exact Hwf.
  split.
  - intros [Hc | Hc]; injection Hc as ->.
    + rewrite decide_False in Hap by lia. injection Hap as <-.
      rewrite discard_apply_volume by done. fold n.
      rewrite decide_True by lia. by rewrite zero_block_appended.
    + rewrite decide_True in Hap by done. injection Hap as <-.
      change (zero_block (zero_block (NdArray (n + 2 :: s) dat) n) (n + 1))
        with (NdArray (n + 2 :: s)
                (data (zero_block (zero_block (NdArray (n + 2 :: s) dat) n) (n + 1))))
        at 1.
      rewrite discard_apply_volume by done. fold n.
      rewrite decide_True by done. do 2 f_equal.
      apply (zero_block_twice (NdArray (n + 2 :: s) dat) n). simpl. lia.
  - intros c0 [= <-] Hc1 Hc2. rewrite decide_False in Hap by done.
    injection Hap as <-. rewrite discard_apply_volume by done. fold n.
    rewrite decide_False by lia. eexists. split; [reflexivity|]. simpl.
    split; [f_equal; lia|done].
Qed.

Lemma discard_apply_again_witness :
  let self := Samples.discard in
  let image := Samples.image in
  let image1 := NdArray [3; 1; 1; 2] [5; 6; 0; 0; 0; 0]%Q in
  let n := DiscardAddGuidanced.number_intensity_ch self in
  (1 <= DiscardAddGuidanced.discard_probability self)%Q ∧
  ndim image = 4 ∧ wf image ∧
  DiscardAddGuidanced._apply (H:=Reference.collaborators) self 0 image
  = Some (image1, 0) ∧
  ((head (shape image) = Some n ∨ head (shape image) = Some (n + 2)) →
     DiscardAddGuidanced._apply (H:=Reference.collaborators) self 0 image1
     = Some (image1, 0)) ∧
  (∀ c, head (shape image) = Some c → c ≠ n → c ≠ n + 2 →
     ∃ image2, DiscardAddGuidanced._apply (H:=Reference.collaborators) self 0 image1
               = Some (image2, 0) ∧
       head (shape image2) = Some (c + 4) ∧
       tail (shape image2) = tail (shape image)).
Proof.
  intros self image image1 n.
  assert (Hp : (1 <= DiscardAddGuidanced.discard_probability self)%Q)
    by (vm_compute; discriminate).
  assert (Hd : ndim image = 4) by reflexivity.
  assert (Hw : wf image) by reflexivity.
  assert (E : DiscardAddGuidanced._apply (H:=Reference.collaborators) self 0 image
              = Some (image1, 0)) by reflexivity.
  split; [exact Hp|]. split; [exact Hd|]. split; [exact Hw|]. split; [exact E|].
  exact (discard_apply_again (H:=Reference.collaborators) self 0 image image1
           Hp Hd Hw E).
Defined.

(** ** The sampled point *)

Lemma unravel_index_in_range (i : nat) (s : list nat) :
  i < size_of s → Forall2 lt (unravel_index i s) s.
Proof.
  revert i. induction s as [|n s IH]; intros i Hi; simpl in *; [constructor|].
  destruct (decide (size_of s = 0)) as [Hz|Hz]; [rewrite Hz in Hi; lia|].
  constructor.
  - apply Nat.Div0.div_lt_upper_bound. lia.
  - apply IH. by apply Nat.mod_upper_bound.
Qed.

Section point_facts.
Context `{Collaborators}.

Lemma find_guidance_inv (r r' : rng) (mask : ndarray Q)
    (weight_map : option (ndarray Q)) (g : list Q) :
  AddRandomGuidanced.find_guidance r mask weight_map = Some (Some g, r') →
  ∃ wd w seed dst,
    AddRandomGuidanced.weighted (distance_transform_cdt mask) weight_map = Some wd ∧
    R_choice r (where_positive (data mask)) w = Some (seed, r') ∧
    wd !! seed = Some dst ∧
    g = dst :: ((λ k, inject_Z (Z.of_nat k)) <$> tail (unravel_index seed (shape mask))) ∧
    shape mask ≠ [].
Proof.
  unfold AddRandomGuidanced.find_guidance. intros Hfg.
  destruct (AddRandomGuidanced.weighted _ _) as [wd|]; [|discriminate].
  simpl in Hfg. case_decide; [|discriminate].
  destruct (mapM _ _) as [w|]; [|discriminate]. simpl in Hfg.
  destruct (R_choice r _ _) as [[seed r1]|] eqn:Hch; [|discriminate]. simpl in Hfg.
  destruct (wd !! seed) as [dst|] eqn:Hdst; [|discriminate]. simpl in Hfg.
  destruct (unravel_index seed (shape mask)) as [|x g'] eqn:Hun; [discriminate|].
  injection Hfg as <- <-. eexists wd, _, seed, dst.
  split; [done|]. split; [exact Hch|]. split; [done|]. split; [by rewrite Hun|].
  intros Hs. rewrite Hs in Hun. discriminate.
Qed.

End point_facts.

(** X5.  On a well-formed mask, every component after the first of a
    point that [find_guidance] returns is a valid index along its axis:
    a whole number from 0 up to, not including, the size of that axis. *)
Theorem find_guidance_point_in_bounds `{Collaborators}
    (r r' : rng) (mask : ndarray Q) (weight_map : option (ndarray Q))
    (g : list Q) :
  choice_sound → wf mask →
  AddRandomGuidanced.find_guidance r mask weight_map = Some (Some g, r') →
  Forall2 (λ x n, ∃ k, x = inject_Z (Z.of_nat k) ∧ k < n)
          (tail g) (tail (shape mask)).
Proof.
  intros Hsound Hwf Hfg.
  apply find_guidance_inv in Hfg as (wd & w & seed & dst & _ & Hch & _ & -> & _).
  apply Hsound, elem_of_where_positive in Hch as (q & Hq & _).
  apply lookup_lt_Some in Hq. rewrite Hwf in Hq.
  pose proof (unravel_index_in_range seed (shape mask) Hq) as Hr. simpl.
  destruct (shape mask) as [|n s]; simpl in *; [constructor|].
  apply Forall2_cons in Hr as [_ Hr].
  apply Forall2_fmap_l. eapply Forall2_impl; [exact Hr|].
  intros k m Hk. by exists k.
Qed.

Lemma find_guidance_point_in_bounds_witness :
  choice_sound (H:=Reference.collaborators) ∧ wf Samples.mask ∧
  AddRandomGuidanced.find_guidance (H:=Reference.collaborators) 1 Samples.mask None
  = Some (Some [2; 0; 0; 2]%Q, 2) ∧
  Forall2 (λ x n, ∃ k, x = inject_Z (Z.of_nat k) ∧ k < n)
          (tail [2; 0; 0; 2]%Q) (tail (shape Samples.mask)).
Proof.
  assert (Hwf : wf Samples.mask) by reflexivity.
  assert (E : AddRandomGuidanced.find_guidance (H:=Reference.collaborators)
                1 Samples.mask None = Some (Some [2; 0; 0; 2]%Q, 2)) by reflexivity.
  split; [exact pick_sound|]. split; [exact Hwf|]. split; [exact E|].
  exact (find_guidance_point_in_bounds (H:=Reference.collaborators)
           1 2 Samples.mask None _ pick_sound Hwf E).
Defined.


Section sampling_returns.
Context `{Collaborators}.


End sampling_returns.





(** ** Which side is clicked *)



Section side_facts.
Context `{Collaborators}.

Lemma Qle_bool_false (x y : Q) : Qle_bool x y = false → (y < x)%Q.
Proof.
  intros Hb. apply Qnot_le_lt. intros Hle. apply Qle_bool_iff in Hle. congruence.
Qed.

End side_facts.

(** X7.  [AddRandomGuidanced.add_guidance] corrects the larger error: a
    positive point is returned only when the interaction flag is set, the
    positive discrepancy has a positive sum and that sum is at least the
    negative one; a negative point only when the negative sum is positive
    and strictly larger than the positive one. *)
Theorem add_guidance_clicks_the_larger_error `{Collaborators}
    (r r' : rng) (discrepancy pos_discr neg_discr : ndarray Q)
    (weight_map : option (ndarray Q)) (will_interact : option bool)
    (pos neg : option (list Q)) :
  index0 discrepancy 0 = Some pos_discr →
  index0 discrepancy 1 = Some neg_discr →
  AddRandomGuidanced.add_guidance r discrepancy weight_map will_interact
    = Some (pos, neg, r') →
  (is_Some pos →
     will_interact = Some true ∧ (0 < Qsum (data pos_discr))%Q ∧
     (Qsum (data neg_discr) <= Qsum (data pos_discr))%Q) ∧
  (is_Some neg →
     will_interact = Some true ∧ (0 < Qsum (data neg_discr))%Q ∧
     (Qsum (data pos_discr) < Qsum (data neg_discr))%Q).
Proof.
  intros Hp Hn. unfold AddRandomGuidanced.add_guidance. rewrite Hp, Hn. simpl.
  destruct will_interact as [[|]|]; simpl;
    try (intros [= <- <- <-]; split; intros [? [=]]).
  destruct (Qle_bool _ _) eqn:Hle; simpl.
  - destruct (Qpositive _) eqn:Hpos; simpl.
    + destruct (AddRandomGuidanced.find_guidance _ _ _) as [[g r1]|]; [|discriminate].
      simpl. intros [= <- <- <-]. split; [|intros [? [=]]].
      intros _. split; [done|]. split; [by apply Qpositive_iff|by apply Qle_bool_iff].
    + intros [= <- <- <-]. split; intros [? [=]].
  - destruct (Qpositive (Qsum (data neg_discr))) eqn:Hpos; simpl.
    + destruct (AddRandomGuidanced.find_guidance _ _ _) as [[g r1]|]; [|discriminate].
      simpl. intros [= <- <- <-]. split; [intros [? [=]]|].
      intros _. split; [done|]. split; [by apply Qpositive_iff|by apply Qle_bool_false].
    + intros [= <- <- <-]. split; intros [? [=]].
Qed.

Lemma add_guidance_clicks_the_larger_error_witness :
  let pos_discr := NdArray [1; 1; 1; 2] [0; 1]%Q in
  let neg_discr := NdArray [1; 1; 1; 2] [0; 0]%Q in
  let pos := Some [1; 0; 0; 1]%Q in
  index0 Samples.discrepancy 0 = Some pos_discr ∧
  index0 Samples.discrepancy 1 = Some neg_discr ∧
  AddRandomGuidanced.add_guidance (H:=Reference.collaborators)
    1 Samples.discrepancy None (Some true) = Some (pos, None, 2) ∧
  (is_Some pos →
     Some true = Some true ∧ (0 < Qsum (data pos_discr))%Q ∧
     (Qsum (data neg_discr) <= Qsum (data pos_discr))%Q) ∧
  (is_Some (@None (list Q)) →
     Some true = Some true ∧ (0 < Qsum (data neg_discr))%Q ∧
     (Qsum (data pos_discr) < Qsum (data neg_discr))%Q).
Proof.
  intros pos_discr neg_discr pos.
  assert (Hp : index0 Samples.discrepancy 0 = Some pos_discr) by reflexivity.
  assert (Hn : index0 Samples.discrepancy 1 = Some neg_discr) by reflexivity.
  assert (E : AddRandomGuidanced.add_guidance (H:=Reference.collaborators)
                1 Samples.discrepancy None (Some true) = Some (pos, None, 2))
    by reflexivity.
  split; [exact Hp|]. split; [exact Hn|]. split; [exact E|].
  exact (add_guidance_clicks_the_larger_error (H:=Reference.collaborators)
           1 2 Samples.discrepancy pos_discr neg_discr None (Some true) pos None
           Hp Hn E).
Defined.

(** X8.  [PosNegClickProbAddRandomGuidanced.add_guidance] draws the side
    of the click whenever the interaction flag is set, also when the draw
    cannot matter.  A point is returned only on a side whose discrepancy
    has a positive sum; the draw decides only when both sides have one:
    a positive point goes against a draw of False only if the negative
    sum is not positive, and the other way round. *)
Theorem add_guidance_follows_the_draw `{Collaborators}
    (self : PosNegClickProbAddRandomGuidanced.t)
    (r r' : rng) (discrepancy pos_discr neg_discr : ndarray Q)
    (weight_map : option (ndarray Q)) (pos neg : option (list Q)) :
  index0 discrepancy 0 = Some pos_discr →
  index0 discrepancy 1 = Some neg_discr →
  PosNegClickProbAddRandomGuidanced.add_guidance self r discrepancy weight_map
    (Some true) = Some (pos, neg, r') →
  ∃ correct_pos r1,
    R_choice r [true; false]
      [Q2R (PosNegClickProbAddRandomGuidanced.pos_click_probability self);
       (1 - Q2R (PosNegClickProbAddRandomGuidanced.pos_click_probability self))%R]
    = Some (correct_pos, r1) ∧
    (is_Some pos →
       (0 < Qsum (data pos_discr))%Q ∧
       (correct_pos = true ∨ ¬ (0 < Qsum (data neg_discr))%Q)) ∧
    (is_Some neg →
       (0 < Qsum (data neg_discr))%Q ∧
       (correct_pos = false ∨ ¬ (0 < Qsum (data pos_discr))%Q)).
Proof.
  intros Hp Hn. unfold PosNegClickProbAddRandomGuidanced.add_guidance.
  rewrite Hp, Hn. simpl.
  destruct (R_choice r _ _) as [[coin r1]|] eqn:Hch; [|discriminate]. simpl.
  intros Hag. exists coin, r1. split; [done|].
  assert (Hnp : ∀ x, Qpositive x = false → ¬ (0 < x)%Q).
  { intros x Hx Hpos. apply Qpositive_iff in Hpos. congruence. }
  assert (Hpi : ∀ x, Qpositive x = true → (0 < x)%Q)
    by (intros x Hx; by apply Qpositive_iff).
  destruct (Qpositive (Qsum (data pos_discr))) eqn:Hpp;
    destruct (Qpositive (Qsum (data neg_discr))) eqn:Hnn; simpl in Hag.
  - destruct coin; simpl in Hag;
      destruct (PosNegClickProbAddRandomGuidanced.find_guidance _ _ _)
        as [[g r2]|]; try discriminate; simpl in Hag;
      injection Hag as <- <- <-;
      split; (intros [? Hs]; try discriminate Hs); auto.
  - destruct (PosNegClickProbAddRandomGuidanced.find_guidance _ _ _)
      as [[g r2]|]; try discriminate; simpl in Hag.
    injection Hag as <- <- <-.
    split; (intros [? Hs]; try discriminate Hs); auto.
  - destruct (PosNegClickProbAddRandomGuidanced.find_guidance _ _ _)
      as [[g r2]|]; try discriminate; simpl in Hag.
    injection Hag as <- <- <-.
    split; (intros [? Hs]; try discriminate Hs); auto.
  - rewrite !andb_false_r in Hag. injection Hag as <- <- <-.
    split; (intros [? Hs]; discriminate Hs).
Qed.

Lemma add_guidance_follows_the_draw_witness :
  let pos_discr := NdArray [1; 1; 1; 2] [0; 1]%Q in
  let neg_discr := NdArray [1; 1; 1; 2] [0; 0]%Q in
  let pos := Some [1; 0; 0; 1]%Q in
  let p := PosNegClickProbAddRandomGuidanced.pos_click_probability Samples.pos_neg in
  index0 Samples.discrepancy 0 = Some pos_discr ∧
  index0 Samples.discrepancy 1 = Some neg_discr ∧
  PosNegClickProbAddRandomGuidanced.add_guidance Samples.pos_neg
    1 Samples.discrepancy None (Some true) = Some (pos, None, 3) ∧
  ∃ correct_pos r1,
    R_choice (Collaborators:=Reference.collaborators) 1 [true; false]
      [Q2R p; (1 - Q2R p)%R] = Some (correct_pos, r1) ∧
    (is_Some pos →
       (0 < Qsum (data pos_discr))%Q ∧
       (correct_pos = true ∨ ¬ (0 < Qsum (data neg_discr))%Q)) ∧
    (is_Some (@None (list Q)) →
       (0 < Qsum (data neg_discr))%Q ∧
       (correct_pos = false ∨ ¬ (0 < Qsum (data pos_discr))%Q)).
Proof.
  intros pos_discr neg_discr pos p.
  assert (Hp : index0 Samples.discrepancy 0 = Some pos_discr) by reflexivity.
  assert (Hn : index0 Samples.discrepancy 1 = Some neg_discr) by reflexivity.
  assert (E : PosNegClickProbAddRandomGuidanced.add_guidance Samples.pos_neg
                1 Samples.discrepancy None (Some true) = Some (pos, None, 3))
    by reflexivity.
  split; [exact Hp|]. split; [exact Hn|]. split; [exact E|].
  exact (add_guidance_follows_the_draw (H:=Reference.collaborators)
           Samples.pos_neg 1 3 Samples.discrepancy pos_discr neg_discr None pos None
           Hp Hn E).
Defined.



(** ** The guidance transforms: the record *)

(** X10.  [__call__] of either guidance transform changes no entry of the
    record but the guidance, "is_pos" and "is_neg", and leaves the keys
    of the instance as they were. *)
Theorem guidance_call_touches_three_entries `{Collaborators} :
  (∀ self data d' self',
     AddRandomGuidanced.call self data = Some (d', self') →
     (∀ k, k ≠ AddRandomGuidanced.guidance self →
           k ≠ "is_pos"%string → k ≠ "is_neg"%string → d' !! k = data !! k) ∧
     AddRandomGuidanced.guidance self' = AddRandomGuidanced.guidance self ∧
     AddRandomGuidanced.discrepancy self' = AddRandomGuidanced.discrepancy self ∧
     AddRandomGuidanced.weight_map self' = AddRandomGuidanced.weight_map self ∧
     AddRandomGuidanced.probability self' = AddRandomGuidanced.probability self)
  ∧
  (∀ self data d' self',
     PosNegClickProbAddRandomGuidanced.call self data = Some (d', self') →
     (∀ k, k ≠ PosNegClickProbAddRandomGuidanced.guidance self →
           k ≠ "is_pos"%string → k ≠ "is_neg"%string → d' !! k = data !! k) ∧
     PosNegClickProbAddRandomGuidanced.guidance self'
     = PosNegClickProbAddRandomGuidanced.guidance self ∧
     PosNegClickProbAddRandomGuidanced.discrepancy self'
     = PosNegClickProbAddRandomGuidanced.discrepancy self ∧
     PosNegClickProbAddRandomGuidanced.weight_map self'
     = PosNegClickProbAddRandomGuidanced.weight_map self ∧
     PosNegClickProbAddRandomGuidanced.probability self'
     = PosNegClickProbAddRandomGuidanced.probability self ∧
     PosNegClickProbAddRandomGuidanced.pos_click_probability self'
     = PosNegClickProbAddRandomGuidanced.pos_click_probability self).
Proof.
  split; intros self data d' self' Hc.
  - apply call_inv in Hc as (g & dv & wv & b & r & s & self2 & _ & Hap & -> & ->).
    apply apply_inv in Hap as (G & pos & neg & r' & G2 & _ & _ & _ & _ & _ & ->).
    simpl. split; [|done].
    intros k Hg Hp Hn. by rewrite !lookup_insert_ne by done.
  - apply call_inv' in Hc as (g & dv & wv & b & r & s & self2 & _ & Hap & -> & ->).
    apply apply_inv' in Hap as (G & pos & neg & r' & G2 & _ & _ & _ & _ & _ & ->).
    simpl. split; [|done].
    intros k Hg Hp Hn. by rewrite !lookup_insert_ne by done.
Qed.

Lemma guidance_call_touches_three_entries_witness :
  let data := Samples.record (PList Samples.empty_guidance) in
  let d' := Samples.clicked "[[[1, 0, 0, 1]], [[-1, -1, -1, -1]]]" data in
  let self := Samples.add_random in
  let self' := AddRandomGuidanced.Build (H:=Reference.collaborators)
                 "guidance" "discrepancy" None "probability"
                 (Some true) false false 2 in
  AddRandomGuidanced.call self data = Some (d', self') ∧
  (∀ k, k ≠ AddRandomGuidanced.guidance self →
        k ≠ "is_pos"%string → k ≠ "is_neg"%string → d' !! k = data !! k) ∧
  AddRandomGuidanced.guidance self' = AddRandomGuidanced.guidance self ∧
  AddRandomGuidanced.discrepancy self' = AddRandomGuidanced.discrepancy self ∧
  AddRandomGuidanced.weight_map self' = AddRandomGuidanced.weight_map self ∧
  AddRandomGuidanced.probability self' = AddRandomGuidanced.probability self.
Proof.
  intros data d' self self'.
  assert (E : AddRandomGuidanced.call self data = Some (d', self'))
    by (vm_compute; reflexivity).
  split; [exact E|].
  exact (proj1 (guidance_call_touches_three_entries (H:=Reference.collaborators))
           self data d' self' E).
Defined.

(** X11.  [__call__] of either guidance transform raises KeyError when
    the record lacks the guidance, the discrepancy, the probability, or
    the weight map of an instance that has a weight-map key. *)
Theorem guidance_call_missing_key `{Collaborators} :
  (∀ self data,
     data !! AddRandomGuidanced.guidance self = None ∨
     data !! AddRandomGuidanced.discrepancy self = None ∨
     data !! AddRandomGuidanced.probability self = None ∨
     (∃ k, AddRandomGuidanced.weight_map self = Some k ∧ data !! k = None) →
     AddRandomGuidanced.call self data = None)
  ∧
  (∀ self data,
     data !! PosNegClickProbAddRandomGuidanced.guidance self = None ∨
     data !! PosNegClickProbAddRandomGuidanced.discrepancy self = None ∨
     data !! PosNegClickProbAddRandomGuidanced.probability self = None ∨
     (∃ k, PosNegClickProbAddRandomGuidanced.weight_map self = Some k
           ∧ data !! k = None) →
     PosNegClickProbAddRandomGuidanced.call self data = None).
Proof.
  split; intros self data Hmiss.
  - unfold AddRandomGuidanced.call, AddRandomGuidanced.randomize,
      AddRandomGuidanced.get_array.
    destruct (data !! AddRandomGuidanced.guidance self) as [g|] eqn:Hg; [|done].
    simpl.
    destruct (data !! AddRandomGuidanced.discrepancy self) as [dv|] eqn:Hd; [|done].
    simpl. destruct dv as [| | | |dv|]; try done. simpl.
    destruct Hmiss as [? | [? | [Hp | (k & Hk & Hw)]]]; try congruence.
    + rewrite Hp. by destruct (AddRandomGuidanced.weight_map self) as [k|];
        [destruct (data !! k) as [[| | | |w|]|]|].
    + by rewrite Hk, Hw.
  - unfold PosNegClickProbAddRandomGuidanced.call,
      PosNegClickProbAddRandomGuidanced.randomize,
      PosNegClickProbAddRandomGuidanced.get_array.
    destruct (data !! PosNegClickProbAddRandomGuidanced.guidance self)
      as [g|] eqn:Hg; [|done]. simpl.
    destruct (data !! PosNegClickProbAddRandomGuidanced.discrepancy self)
      as [dv|] eqn:Hd; [|done].
    simpl. destruct dv as [| | | |dv|]; try done. simpl.
    destruct Hmiss as [? | [? | [Hp | (k & Hk & Hw)]]]; try congruence.
    + rewrite Hp.
      by destruct (PosNegClickProbAddRandomGuidanced.weight_map self) as [k|];
        [destruct (data !! k) as [[| | | |w|]|]|].
    + by rewrite Hk, Hw.
Qed.

Lemma guidance_call_missing_key_witness :
  let self := Samples.weighted_add_random in
  let data := Samples.record (PList Samples.empty_guidance) in
  (data !! AddRandomGuidanced.guidance self = None ∨
   data !! AddRandomGuidanced.discrepancy self = None ∨
   data !! AddRandomGuidanced.probability self = None ∨
   (∃ k, AddRandomGuidanced.weight_map self = Some k ∧ data !! k = None)) ∧
  AddRandomGuidanced.call self data = None.
Proof.
  intros self data.
  assert (Hmiss : data !! AddRandomGuidanced.guidance self = None ∨
                  data !! AddRandomGuidanced.discrepancy self = None ∨
                  data !! AddRandomGuidanced.probability self = None ∨
                  (∃ k, AddRandomGuidanced.weight_map self = Some k
                        ∧ data !! k = None)).
  { right; right; right. exists "weights"%string. split; reflexivity. }
  split; [exact Hmiss|].
  exact (proj1 (guidance_call_missing_key (H:=Reference.collaborators))
           self data Hmiss).
Defined.

(** X12.  When [add_guidance] gives a point and the decoded guidance has
    fewer than two rows, [_apply] of either transform raises (IndexError
    at [guidance[0]] or [guidance[1]]). *)
Theorem apply_needs_two_rows `{Collaborators} :
  (∀ self g discrepancy weight_map G pos neg r,
     AddRandomGuidanced.decode g = Some G → length G < 2 →
     AddRandomGuidanced.add_guidance (AddRandomGuidanced.self_R self) discrepancy
       weight_map (AddRandomGuidanced._will_interact self) = Some (pos, neg, r) →
     AddRandomGuidanced.truthy pos = true ∨ AddRandomGuidanced.truthy neg = true →
     AddRandomGuidanced._apply self g discrepancy weight_map = None)
  ∧
  (∀ self g discrepancy weight_map G pos neg r,
     PosNegClickProbAddRandomGuidanced.decode g = Some G → length G < 2 →
     PosNegClickProbAddRandomGuidanced.add_guidance self
       (PosNegClickProbAddRandomGuidanced.self_R self) discrepancy
       weight_map (PosNegClickProbAddRandomGuidanced._will_interact self)
     = Some (pos, neg, r) →
     PosNegClickProbAddRandomGuidanced.truthy pos = true
     ∨ PosNegClickProbAddRandomGuidanced.truthy neg = true →
     PosNegClickProbAddRandomGuidanced._apply self g discrepancy weight_map = None).
Proof.
  split; intros self g dv wv G pos neg r Hdec Hlen Hag Htr.
  - unfold AddRandomGuidanced._apply. rewrite Hdec. simpl. rewrite Hag. simpl.
    assert (Hshort : ∀ p q, AddRandomGuidanced.append2 G p q = None)
      by (intros p q; destruct G as [|g0 [|g1 G]]; simpl in *; (done || lia)).
    destruct (AddRandomGuidanced.truthy pos) eqn:Hp; simpl.
    + by rewrite Hshort.
    + destruct Htr as [|Hn]; [done|]. by rewrite Hn, Hshort.
  - unfold PosNegClickProbAddRandomGuidanced._apply. rewrite Hdec. simpl.
    rewrite Hag. simpl.
    assert (Hshort : ∀ p q, PosNegClickProbAddRandomGuidanced.append2 G p q = None)
      by (intros p q; destruct G as [|g0 [|g1 G]]; simpl in *; (done || lia)).
    destruct (PosNegClickProbAddRandomGuidanced.truthy pos) eqn:Hp; simpl.
    + by rewrite Hshort.
    + destruct Htr as [|Hn]; [done|]. by rewrite Hn, Hshort.
Qed.

Lemma apply_needs_two_rows_witness :
  let self := AddRandomGuidanced.set_will_interact Samples.add_random true 1 in
  let g := PList [[]] in
  let pos := Some [1; 0; 0; 1]%Q in
  AddRandomGuidanced.decode (H:=Reference.collaborators) g = Some [[]] ∧
  length ([[]] : nested Q) < 2 ∧
  AddRandomGuidanced.add_guidance (AddRandomGuidanced.self_R self)
    Samples.discrepancy None (AddRandomGuidanced._will_interact self)
  = Some (pos, None, 2) ∧
  (AddRandomGuidanced.truthy pos = true ∨ AddRandomGuidanced.truthy None = true) ∧
  AddRandomGuidanced._apply self g Samples.discrepancy None = None.
Proof.
  intros self g pos.
  assert (Hdec : AddRandomGuidanced.decode (H:=Reference.collaborators) g
                 = Some [[]]) by reflexivity.
  assert (Hlen : length ([[]] : nested Q) < 2) by (simpl; lia).
  assert (Hag : AddRandomGuidanced.add_guidance (AddRandomGuidanced.self_R self)
                  Samples.discrepancy None (AddRandomGuidanced._will_interact self)
                = Some (pos, None, 2)) by reflexivity.
  assert (Htr : AddRandomGuidanced.truthy pos = true
                ∨ AddRandomGuidanced.truthy None = true) by (left; reflexivity).
  split; [exact Hdec|]. split; [exact Hlen|]. split; [exact Hag|].
  split; [exact Htr|].
  exact (proj1 (apply_needs_two_rows (H:=Reference.collaborators))
           self g Samples.discrepancy None _ pos None 2 Hdec Hlen Hag Htr).
Defined.

(** X13.  On an instance whose flags are False, with a guidance key that
    is not a flag key and a guidance that decodes to [P, N]: the flags of
    the returned record tell what was added.  [is_pos] True: one point
    at the end of the positive list and its sentinel at the end of the
    negative list.  [is_neg] True: the reverse.  Both False: both lists
    keep their points.  Nothing is ever removed or reordered. *)
Theorem guidance_call_flags_tell_growth `{Collaborators} :
  let ints := λ rows : list (list Q), (λ pt : list Q, astype_int <$> pt) <$> rows in
  (∀ self data d' self' g P N,
     AddRandomGuidanced.is_pos self = false →
     AddRandomGuidanced.is_neg self = false →
     AddRandomGuidanced.guidance self ≠ "is_pos"%string →
     AddRandomGuidanced.guidance self ≠ "is_neg"%string →
     data !! AddRandomGuidanced.guidance self = Some g →
     AddRandomGuidanced.decode g = Some [P; N] →
     AddRandomGuidanced.call self data = Some (d', self') →
     ∃ P' N' p n,
       d' !! AddRandomGuidanced.guidance self = Some (PStr (json_dumps [P'; N'])) ∧
       d' !! "is_pos"%string = Some (PBool p) ∧
       d' !! "is_neg"%string = Some (PBool n) ∧
       match p, n with
       | true, false => ∃ pt, P' = ints P ++ [astype_int <$> pt] ∧
                              N' = ints N ++ [replicate (length pt) (-1)%Z]
       | false, true => ∃ pt, P' = ints P ++ [replicate (length pt) (-1)%Z] ∧
                              N' = ints N ++ [astype_int <$> pt]
       | false, false => P' = ints P ∧ N' = ints N
       | true, true => False
       end)
  ∧
  (∀ self data d' self' g P N,
     PosNegClickProbAddRandomGuidanced.is_pos self = false →
     PosNegClickProbAddRandomGuidanced.is_neg self = false →
     PosNegClickProbAddRandomGuidanced.guidance self ≠ "is_pos"%string →
     PosNegClickProbAddRandomGuidanced.guidance self ≠ "is_neg"%string →
     data !! PosNegClickProbAddRandomGuidanced.guidance self = Some g →
     PosNegClickProbAddRandomGuidanced.decode g = Some [P; N] →
     PosNegClickProbAddRandomGuidanced.call self data = Some (d', self') →
     ∃ P' N' p n,
       d' !! PosNegClickProbAddRandomGuidanced.guidance self
       = Some (PStr (json_dumps [P'; N'])) ∧
       d' !! "is_pos"%string = Some (PBool p) ∧
       d' !! "is_neg"%string = Some (PBool n) ∧
       match p, n with
       | true, false => ∃ pt, P' = ints P ++ [astype_int <$> pt] ∧
                              N' = ints N ++ [replicate (length pt) (-1)%Z]
       | false, true => ∃ pt, P' = ints P ++ [replicate (length pt) (-1)%Z] ∧
                              N' = ints N ++ [astype_int <$> pt]
       | false, false => P' = ints P ∧ N' = ints N
       | true, true => False
       end).
Proof.
  intros ints.
  assert (Hsent : ∀ k, astype_int <$> replicate k (-1)%Q = replicate k (-1)%Z)
    by (intros k; by rewrite fmap_replicate).
  split; intros self data d' self' g P N Hp Hn Hkp Hkn Hg Hdec Hc.
  - apply call_inv in Hc as (g0 & dv & wv & b & r & s & self2 & Hg0 & Hap & -> & _).
    rewrite Hg in Hg0. injection Hg0 as <-.
    apply apply_inv in Hap as (G & pos & neg & r' & G2 & HG & _ & Hcase & _ & -> & ->).
    rewrite Hdec in HG. injection HG as <-. simpl. rewrite Hp, Hn. simpl.
    destruct Hcase as [(Hpos & Hneg & ->) | [(pt & _ & Hpos & Hneg & Happ)
                                           | (pt & _ & Hneg & Hpos & Happ)]];
      rewrite Hpos, Hneg.
    + exists (ints P), (ints N), false, false.
      rewrite !lookup_insert_ne by done. rewrite lookup_insert_eq.
      rewrite lookup_insert_ne by done. rewrite !lookup_insert_eq. done.
    + injection Happ as <-.
      exists (ints P ++ [astype_int <$> pt]),
             (ints N ++ [replicate (length pt) (-1)%Z]), true, false.
      rewrite !lookup_insert_ne by done. rewrite lookup_insert_eq.
      rewrite lookup_insert_ne by done. rewrite !lookup_insert_eq.
      split; [|split; [done|split; [done|by exists pt]]].
      unfold map3, ints, AddRandomGuidanced.sentinel. simpl.
      rewrite !fmap_app. simpl. by rewrite Hsent.
    + injection Happ as <-.
      exists (ints P ++ [replicate (length pt) (-1)%Z]),
             (ints N ++ [astype_int <$> pt]), false, true.
      rewrite !lookup_insert_ne by done. rewrite lookup_insert_eq.
      rewrite lookup_insert_ne by done. rewrite !lookup_insert_eq.
      split; [|split; [done|split; [done|by exists pt]]].
      unfold map3, ints, AddRandomGuidanced.sentinel. simpl.
      rewrite !fmap_app. simpl. by rewrite Hsent.
  - apply call_inv' in Hc as (g0 & dv & wv & b & r & s & self2 & Hg0 & Hap & -> & _).
    rewrite Hg in Hg0. injection Hg0 as <-.
    apply apply_inv' in Hap as (G & pos & neg & r' & G2 & HG & _ & Hcase & _ & -> & ->).
    rewrite Hdec in HG. injection HG as <-. simpl. rewrite Hp, Hn. simpl.
    destruct Hcase as [(Hpos & Hneg & ->) | [(pt & _ & Hpos & Hneg & Happ)
                                           | (pt & _ & Hneg & Hpos & Happ)]];
      rewrite Hpos, Hneg.
    + exists (ints P), (ints N), false, false.
      rewrite !lookup_insert_ne by done. rewrite lookup_insert_eq.
      rewrite lookup_insert_ne by done. rewrite !lookup_insert_eq. done.
    + injection Happ as <-.
      exists (ints P ++ [astype_int <$> pt]),
             (ints N ++ [replicate (length pt) (-1)%Z]), true, false.
      rewrite !lookup_insert_ne by done. rewrite lookup_insert_eq.
      rewrite lookup_insert_ne by done. rewrite !lookup_insert_eq.
      split; [|split; [done|split; [done|by exists pt]]].
      unfold map3, ints, PosNegClickProbAddRandomGuidanced.sentinel. simpl.
      rewrite !fmap_app. simpl. by rewrite Hsent.
    + injection Happ as <-.
      exists (ints P ++ [replicate (length pt) (-1)%Z]),
             (ints N ++ [astype_int <$> pt]), false, true.
      rewrite !lookup_insert_ne by done. rewrite lookup_insert_eq.
      rewrite lookup_insert_ne by done. rewrite !lookup_insert_eq.
      split; [|split; [done|split; [done|by exists pt]]].
      unfold map3, ints, PosNegClickProbAddRandomGuidanced.sentinel. simpl.
      rewrite !fmap_app. simpl. by rewrite Hsent.
Qed.

Lemma guidance_call_flags_tell_growth_witness :
  let ints := λ rows : list (list Q), (λ pt : list Q, astype_int <$> pt) <$> rows in
  let self := Samples.add_random in
  let data := Samples.record Samples.as_list in
  let d' := Samples.clicked Samples.two_clicks data in
  let self' := AddRandomGuidanced.Build (H:=Reference.collaborators)
                 "guidance" "discrepancy" None "probability"
                 (Some true) false false 2 in
  let P := [[7; 1; 1; 1]]%Q in
  let N := [[-1; -1; -1; -1]]%Q in
  AddRandomGuidanced.is_pos self = false ∧
  AddRandomGuidanced.is_neg self = false ∧
  AddRandomGuidanced.guidance self ≠ "is_pos"%string ∧
  AddRandomGuidanced.guidance self ≠ "is_neg"%string ∧
  data !! AddRandomGuidanced.guidance self = Some Samples.as_list ∧
  AddRandomGuidanced.decode (H:=Reference.collaborators) Samples.as_list
  = Some [P; N] ∧
  AddRandomGuidanced.call self data = Some (d', self') ∧
  ∃ P' N' p n,
    d' !! AddRandomGuidanced.guidance self
    = Some (PStr (json_dumps (Collaborators:=Reference.collaborators) [P'; N'])) ∧
    d' !! "is_pos"%string = Some (PBool p) ∧
    d' !! "is_neg"%string = Some (PBool n) ∧
    match p, n with
    | true, false => ∃ pt, P' = ints P ++ [astype_int <$> pt] ∧
                           N' = ints N ++ [replicate (length pt) (-1)%Z]
    | false, true => ∃ pt, P' = ints P ++ [replicate (length pt) (-1)%Z] ∧
                           N' = ints N ++ [astype_int <$> pt]
    | false, false => P' = ints P ∧ N' = ints N
    | true, true => False
    end.
Proof.
  intros ints self data d' self' P N.
  assert (Hkp : AddRandomGuidanced.guidance self ≠ "is_pos"%string)
    by (simpl; discriminate).
  assert (Hkn : AddRandomGuidanced.guidance self ≠ "is_neg"%string)
    by (simpl; discriminate).
  assert (Hg : data !! AddRandomGuidanced.guidance self = Some Samples.as_list)
    by (vm_compute; reflexivity).
  assert (Hdec : AddRandomGuidanced.decode (H:=Reference.collaborators)
                   Samples.as_list = Some [P; N]) by reflexivity.
  assert (E : AddRandomGuidanced.call self data = Some (d', self'))
    by (vm_compute; reflexivity).
  split; [reflexivity|]. split; [reflexivity|]. split; [exact Hkp|].
  split; [exact Hkn|]. split; [exact Hg|]. split; [exact Hdec|]. split; [exact E|].
  exact (proj1 (guidance_call_flags_tell_growth (H:=Reference.collaborators))
           self data d' self' Samples.as_list P N eq_refl eq_refl Hkp Hkn Hg Hdec E).
Defined.



(** ** SingleLabelSingleModalityd: what the branches do *)

Lemma size_of_app (s t : list nat) : size_of (s ++ t) = size_of s * size_of t.
Proof. induction s as [|n s IH]; simpl; [lia|]. rewrite IH. lia. Qed.

Lemma heads_of_chunks {A} (n k : nat) (l : list A) :
  length l = n * S k →
  length (omap head (reshape (replicate n (S k)) l)) = n ∧
  ∀ j, j < n → omap head (reshape (replicate n (S k)) l) !! j = l !! (j * S k).
Proof.
  revert l. induction n as [|n IH]; intros l Hlen; simpl.
  - split; [done|]. intros j Hj. lia.
  - destruct l as [|x l]; [simpl in Hlen; lia|]. simpl.
    destruct (IH (drop k l)) as [Hl Hj].
    { rewrite length_drop. simpl in Hlen. lia. }
    unfold omap in *. split; [by rewrite Hl|].
    intros [|j] Hlt; [done|]. simpl. rewrite Hj by lia.
    by rewrite lookup_drop.
Qed.

(** [a[..., 0]] of a well-formed array whose last axis is not empty *)
Lemma take_last0_spec {A} (a : ndarray A) (s : list nat) (k : nat) :
  shape a = s ++ [S k] → wf a →
  ∃ b, take_last0 a = Some b ∧ shape b = s ∧ wf b ∧
    ∀ j, j < size_of s → data b !! j = data a !! (j * S k).
Proof.
  intros Hs Hwf. unfold wf in Hwf. rewrite Hs, size_of_app in Hwf. simpl in Hwf.
  unfold take_last0. rewrite Hs, reverse_app. simpl. rewrite reverse_involutive.
  destruct (heads_of_chunks (size_of s) k (data a)) as [Hl Hj]; [lia|].
  eexists. split; [reflexivity|]. split; [done|]. split; [exact Hl|]. exact Hj.
Qed.

Section single_branches.
Import SingleLabelSingleModalityd.

Lemma Qgt1_iff (q : Q) : Qgt1 q = true ↔ (1 < q)%Q.
Proof.
  unfold Qgt1. rewrite negb_true_iff. split.
  - intros Hb. apply Qnot_le_lt. intros Hle. apply Qle_bool_iff in Hle. congruence.
  - intros Hlt. destruct (Qle_bool q 1) eqn:Hb; [|done].
    apply Qle_bool_iff in Hb. by apply Qlt_not_le in Hlt.
Qed.

Lemma patch_spec (m : meta_dict) :
  4 < length (pixdim m) → 4 < length (dim m) →
  patch m = Some (MetaDict (<[4 := 0%Q]> (pixdim m))
                           (<[4 := 1%Z]> (<[0 := 3%Z]> (dim m)))
                           (filename_or_obj m)).
Proof.
  intros Hp Hd. unfold patch, set_index.
  destruct (decide (4 < length (pixdim m))); [|lia]. simpl.
  destruct (decide (0 < length (dim m))); [|lia]. simpl.
  destruct (decide (4 < length (<[0:=3%Z]> (dim m)))) as [|Hn]; [done|].
  rewrite length_insert in Hn. lia.
Qed.

Lemma foreground_spec (a : ndarray Q) :
  shape (foreground a) = shape a ∧
  Forall2 (λ q q', ((0 < q)%Q → q' = 1%Q) ∧ (¬ (0 < q)%Q → q' = 0%Q))
          (data a) (data (foreground a)).
Proof.
  split; [done|]. unfold foreground. simpl.
  apply Forall2_fmap_r, Forall_Forall2_diag, Forall_forall. intros q _. simpl.
  destruct (Qpositive q) eqn:Hq.
  - apply Qpositive_iff in Hq. split; [done|]. intros Hn. by destruct Hn.
  - split; [|done]. intros Hpos. apply Qpositive_iff in Hpos. congruence.
Qed.

End single_branches.

(** X15.  With key "label": a label with a value above 1 becomes the
    indicator of [label > 0] (1 where the label is positive, 0 elsewhere)
    with the shape it had, and its metadata gets [pixdim[4] = 0],
    [dim[0] = 3], [dim[4] = 1], nothing else in the metadata or in the
    record changing.  A label with no value above 1 is returned as it is,
    binary or not, and its metadata is not touched. *)
Theorem label_with_many_masks_becomes_binary
    (d : gmap string pyval) (h : gmap loc SingleLabelSingleModalityd.meta_dict)
    (l : loc) (m : SingleLabelSingleModalityd.meta_dict) (a : ndarray Q) (mx : Q) :
  d !! "label_meta_dict"%string = Some (PDict l) → h !! l = Some m →
  d !! "label"%string = Some (PArray a) → np_max (data a) = Some mx →
  4 < length (SingleLabelSingleModalityd.pixdim m) →
  4 < length (SingleLabelSingleModalityd.dim m) →
  ((1 < mx)%Q →
     ∃ a',
       SingleLabelSingleModalityd.call ["label"%string] d h
       = Some (<["label"%string := PArray a']> d,
               <[l := SingleLabelSingleModalityd.MetaDict
                        (<[4 := 0%Q]> (SingleLabelSingleModalityd.pixdim m))
                        (<[4 := 1%Z]> (<[0 := 3%Z]> (SingleLabelSingleModalityd.dim m)))
                        (SingleLabelSingleModalityd.filename_or_obj m)]> h) ∧
       shape a' = shape a ∧
       Forall2 (λ q q', ((0 < q)%Q → q' = 1%Q) ∧ (¬ (0 < q)%Q → q' = 0%Q))
               (data a) (data a')) ∧
  ((mx <= 1)%Q → SingleLabelSingleModalityd.call ["label"%string] d h = Some (d, h)).
Proof.
  intros Hmeta Hl Hlab Hmax Hp Hd.
  unfold SingleLabelSingleModalityd.call. simpl.
  unfold SingleLabelSingleModalityd.step. simpl.
  unfold SingleLabelSingleModalityd.label_branch, SingleLabelSingleModalityd.get_meta,
    SingleLabelSingleModalityd.get_array.
  rewrite Hmeta. simpl. rewrite Hl. simpl. rewrite Hlab. simpl. rewrite Hmax. simpl.
  split.
  - intros Hgt. apply Qgt1_iff in Hgt. rewrite Hgt.
    rewrite (patch_spec m Hp Hd). simpl.
    exists (SingleLabelSingleModalityd.foreground a). split; [done|].
    apply foreground_spec.
  - intros Hle. assert (Hq : SingleLabelSingleModalityd.Qgt1 mx = false).
    { destruct (SingleLabelSingleModalityd.Qgt1 mx) eqn:E; [|done].
      apply Qgt1_iff in E. by apply Qlt_not_le in E. }
    by rewrite Hq.
Qed.

Lemma label_with_many_masks_becomes_binary_witness :
  let a := NdArray [1; 1; 3] [0; 2; 1]%Q in
  Samples.volumes !! "label_meta_dict"%string = Some (PDict 0) ∧
  Samples.metadata !! 0 = Some Samples.label_meta ∧
  Samples.volumes !! "label"%string = Some (PArray a) ∧
  np_max (data a) = Some 2%Q ∧
  4 < length (SingleLabelSingleModalityd.pixdim Samples.label_meta) ∧
  4 < length (SingleLabelSingleModalityd.dim Samples.label_meta) ∧
  ((1 < 2)%Q →
     ∃ a',
       SingleLabelSingleModalityd.call ["label"%string] Samples.volumes Samples.metadata
       = Some (<["label"%string := PArray a']> Samples.volumes,
               <[0 := SingleLabelSingleModalityd.MetaDict
                        (<[4 := 0%Q]> (SingleLabelSingleModalityd.pixdim Samples.label_meta))
                        (<[4 := 1%Z]>
                           (<[0 := 3%Z]> (SingleLabelSingleModalityd.dim Samples.label_meta)))
                        (SingleLabelSingleModalityd.filename_or_obj Samples.label_meta)]>
                 Samples.metadata) ∧
       shape a' = shape a ∧
       Forall2 (λ q q', ((0 < q)%Q → q' = 1%Q) ∧ (¬ (0 < q)%Q → q' = 0%Q))
               (data a) (data a')) ∧
  ((2 <= 1)%Q →
     SingleLabelSingleModalityd.call ["label"%string] Samples.volumes Samples.metadata
     = Some (Samples.volumes, Samples.metadata)).
Proof.
  intros a.
  assert (H1 : Samples.volumes !! "label_meta_dict"%string = Some (PDict 0))
    by (vm_compute; reflexivity).
  assert (H2 : Samples.metadata !! 0 = Some Samples.label_meta)
    by (vm_compute; reflexivity).
  assert (H3 : Samples.volumes !! "label"%string = Some (PArray a))
    by (vm_compute; reflexivity).
  assert (H4 : np_max (data a) = Some 2%Q) by reflexivity.
  assert (H5 : 4 < length (SingleLabelSingleModalityd.pixdim Samples.label_meta))
    by (simpl; lia).
  assert (H6 : 4 < length (SingleLabelSingleModalityd.dim Samples.label_meta))
    by (simpl; lia).
  split; [exact H1|]. split; [exact H2|]. split; [exact H3|]. split; [exact H4|].
  split; [exact H5|]. split; [exact H6|].
  exact (label_with_many_masks_becomes_binary Samples.volumes Samples.metadata
           0 Samples.label_meta a 2%Q H1 H2 H3 H4 H5 H6).
Defined.

(** X16.  With key "image": when [pixdim[4]] of the image metadata is
    positive, a well-formed image whose last axis is not empty is
    replaced by its first modality: the last axis is dropped and the
    voxel at a position is the voxel at that position with modality
    index 0; the metadata is patched as for the label.  When
    [pixdim[4]] is not positive nothing changes, and the image itself
    is not even looked up. *)
Theorem image_with_many_modalities_keeps_the_first
    (d : gmap string pyval) (h : gmap loc SingleLabelSingleModalityd.meta_dict)
    (l : loc) (m : SingleLabelSingleModalityd.meta_dict) (p4 : Q) :
  d !! "image_meta_dict"%string = Some (PDict l) → h !! l = Some m →
  SingleLabelSingleModalityd.pixdim m !! 4 = Some p4 →
  ((0 < p4)%Q →
     ∀ a s k, d !! "image"%string = Some (PArray a) →
       shape a = s ++ [S k] → wf a →
       4 < length (SingleLabelSingleModalityd.dim m) →
       ∃ a',
         SingleLabelSingleModalityd.call ["image"%string] d h
         = Some (<["image"%string := PArray a']> d,
                 <[l := SingleLabelSingleModalityd.MetaDict
                          (<[4 := 0%Q]> (SingleLabelSingleModalityd.pixdim m))
                          (<[4 := 1%Z]> (<[0 := 3%Z]> (SingleLabelSingleModalityd.dim m)))
                          (SingleLabelSingleModalityd.filename_or_obj m)]> h) ∧
         shape a' = s ∧ wf a' ∧
         ∀ j, j < size_of s → data a' !! j = data a !! (j * S k)) ∧
  (¬ (0 < p4)%Q →
     SingleLabelSingleModalityd.call ["image"%string] d h = Some (d, h)).
Proof.
  intros Hmeta Hl Hp4.
  unfold SingleLabelSingleModalityd.call. simpl.
  unfold SingleLabelSingleModalityd.step. simpl.
  unfold SingleLabelSingleModalityd.image_branch, SingleLabelSingleModalityd.get_meta,
    SingleLabelSingleModalityd.get_array.
  rewrite Hmeta. simpl. rewrite Hl. simpl. rewrite Hp4. simpl.
  split.
  - intros Hpos a s k Himg Hs Hwf Hd. apply Qpositive_iff in Hpos. rewrite Hpos.
    rewrite Himg. simpl.
    destruct (take_last0_spec a s k Hs Hwf) as (a' & Ha' & Hsa & Hwa & Hja).
    rewrite Ha'. simpl.
    rewrite patch_spec; [|by eapply lookup_lt_Some|done]. simpl.
    by exists a'.
  - intros Hn. destruct (Qpositive p4) eqn:E; [|done].
    apply Qpositive_iff in E. done.
Qed.

Lemma image_with_many_modalities_keeps_the_first_witness :
  let a := NdArray [1; 1; 2; 2] [5; 6; 7; 8]%Q in
  let m := Samples.image_meta in
  Samples.volumes !! "image_meta_dict"%string = Some (PDict 1) ∧
  Samples.metadata !! 1 = Some m ∧
  SingleLabelSingleModalityd.pixdim m !! 4 = Some 2%Q ∧
  (0 < 2)%Q ∧
  Samples.volumes !! "image"%string = Some (PArray a) ∧
  shape a = [1; 1; 2] ++ [2] ∧ wf a ∧
  4 < length (SingleLabelSingleModalityd.dim m) ∧
  ∃ a',
    SingleLabelSingleModalityd.call ["image"%string] Samples.volumes Samples.metadata
    = Some (<["image"%string := PArray a']> Samples.volumes,
            <[1 := SingleLabelSingleModalityd.MetaDict
                     (<[4 := 0%Q]> (SingleLabelSingleModalityd.pixdim m))
                     (<[4 := 1%Z]> (<[0 := 3%Z]> (SingleLabelSingleModalityd.dim m)))
                     (SingleLabelSingleModalityd.filename_or_obj m)]> Samples.metadata) ∧
    shape a' = [1; 1; 2] ∧ wf a' ∧
    ∀ j, j < size_of [1; 1; 2] → data a' !! j = data a !! (j * 2).
Proof.
  intros a m.
  assert (H1 : Samples.volumes !! "image_meta_dict"%string = Some (PDict 1))
    by (vm_compute; reflexivity).
  assert (H2 : Samples.metadata !! 1 = Some m) by (vm_compute; reflexivity).
  assert (H3 : SingleLabelSingleModalityd.pixdim m !! 4 = Some 2%Q) by reflexivity.
  assert (H4 : (0 < 2)%Q) by reflexivity.
  assert (H5 : Samples.volumes !! "image"%string = Some (PArray a))
    by (vm_compute; reflexivity).
  assert (H6 : shape a = [1; 1; 2] ++ [2]) by reflexivity.
  assert (H7 : wf a) by reflexivity.
  assert (H8 : 4 < length (SingleLabelSingleModalityd.dim m)) by (simpl; lia).
  split; [exact H1|]. split; [exact H2|]. split; [exact H3|]. split; [exact H4|].
  split; [exact H5|]. split; [exact H6|]. split; [exact H7|]. split; [exact H8|].
  exact (proj1 (image_with_many_modalities_keeps_the_first
                  Samples.volumes Samples.metadata 1 m 2%Q H1 H2 H3)
           H4 a [1; 1; 2] 1 H5 H6 H7 H8).
Defined.

(** X17.  Keys other than "label" and "image" are ignored: with such keys
    only, the record and the metadata come back as they are, whatever
    the record holds; a key that the record lacks is no error. *)
Theorem single_label_ignores_other_keys
    (keys : list string) (d : gmap string pyval)
    (h : gmap loc SingleLabelSingleModalityd.meta_dict) :
  "label"%string ∉ keys → "image"%string ∉ keys →
  SingleLabelSingleModalityd.call keys d h = Some (d, h).
Proof.
  unfold SingleLabelSingleModalityd.call.
  induction keys as [|key keys IH]; intros Hl Hi; [done|]. simpl.
  apply not_elem_of_cons in Hl as [Hl1 Hl2].
  apply not_elem_of_cons in Hi as [Hi1 Hi2].
  unfold SingleLabelSingleModalityd.step.
  rewrite decide_False by done. simpl. rewrite decide_False by done.
  by apply IH.
Qed.

Lemma single_label_ignores_other_keys_witness :
  let keys := ["guidance"; "pred"]%string in
  ("label"%string ∉ keys) ∧ ("image"%string ∉ keys) ∧
  SingleLabelSingleModalityd.call keys ∅ ∅ = Some (∅, ∅).
Proof.
  intros keys.
  assert (Hl : "label"%string ∉ keys).
  { intros Hin. repeat (apply elem_of_cons in Hin as [Hin|Hin]; [discriminate|]).
    by apply elem_of_nil in Hin. }
  assert (Hi : "image"%string ∉ keys).
  { intros Hin. repeat (apply elem_of_cons in Hin as [Hin|Hin]; [discriminate|]).
    by apply elem_of_nil in Hin. }
  split; [exact Hl|]. split; [exact Hi|].
  exact (single_label_ignores_other_keys keys ∅ ∅ Hl Hi).
Defined.

(** X18.  The metadata is patched through the reference.  When "label"
    and "image" are bound to one metadata dictionary and the keys are
    ("label", "image"), a label with a value above 1 sets [pixdim[4]] of
    that dictionary to 0 before the image is looked at: the image keeps
    all its modalities, whatever [pixdim[4]] was. *)
Theorem shared_metadata_hides_the_modalities
    (d : gmap string pyval) (h : gmap loc SingleLabelSingleModalityd.meta_dict)
    (l : loc) (m : SingleLabelSingleModalityd.meta_dict) (a : ndarray Q) (mx : Q) :
  d !! "label_meta_dict"%string = Some (PDict l) →
  d !! "image_meta_dict"%string = Some (PDict l) →
  h !! l = Some m →
  d !! "label"%string = Some (PArray a) → np_max (data a) = Some mx → (1 < mx)%Q →
  4 < length (SingleLabelSingleModalityd.pixdim m) →
  4 < length (SingleLabelSingleModalityd.dim m) →
  ∃ d1 h1,
    SingleLabelSingleModalityd.call ["label"; "image"]%string d h = Some (d1, h1) ∧
    d1 !! "image"%string = d !! "image"%string ∧
    d1 !! "label"%string = Some (PArray (SingleLabelSingleModalityd.foreground a)) ∧
    ∃ m1, h1 !! l = Some m1 ∧
          SingleLabelSingleModalityd.pixdim m1 !! 4 = Some 0%Q.
Proof.
  intros Hlm Him Hl Hlab Hmax Hgt Hp Hd.
  set (m1 := SingleLabelSingleModalityd.MetaDict
               (<[4 := 0%Q]> (SingleLabelSingleModalityd.pixdim m))
               (<[4 := 1%Z]> (<[0 := 3%Z]> (SingleLabelSingleModalityd.dim m)))
               (SingleLabelSingleModalityd.filename_or_obj m)).
  set (d1 := <["label"%string := PArray (SingleLabelSingleModalityd.foreground a)]> d).
  assert (Hs1 : SingleLabelSingleModalityd.step "label" (d, h)
                = Some (d1, <[l := m1]> h)).
  { unfold SingleLabelSingleModalityd.step. simpl.
    unfold SingleLabelSingleModalityd.label_branch, SingleLabelSingleModalityd.get_meta,
      SingleLabelSingleModalityd.get_array.
    rewrite Hlm. simpl. rewrite Hl. simpl. rewrite Hlab. simpl. rewrite Hmax. simpl.
    apply Qgt1_iff in Hgt. rewrite Hgt. by rewrite (patch_spec m Hp Hd). }
  assert (Hs2 : SingleLabelSingleModalityd.step "image" (d1, <[l := m1]> h)
                = Some (d1, <[l := m1]> h)).
  { unfold SingleLabelSingleModalityd.step. simpl.
    unfold SingleLabelSingleModalityd.image_branch, SingleLabelSingleModalityd.get_meta.
    unfold d1. rewrite lookup_insert_ne by done. rewrite Him. simpl.
    rewrite lookup_insert_eq. simpl.
    by rewrite list_lookup_insert_eq. }
  exists d1, (<[l := m1]> h).
  split.
  { unfold SingleLabelSingleModalityd.call. simpl. rewrite Hs1. simpl.
    by rewrite Hs2. }
  split; [unfold d1; by rewrite lookup_insert_ne|].
  split; [unfold d1; by rewrite lookup_insert_eq|].
  exists m1. split; [by rewrite lookup_insert_eq|]. simpl.
  by rewrite list_lookup_insert_eq.
Qed.

Lemma shared_metadata_hides_the_modalities_witness :
  let d := <["image_meta_dict"%string := PDict 0]> Samples.volumes in
  let h : gmap loc SingleLabelSingleModalityd.meta_dict :=
    <[0 := Samples.image_meta]> ∅ in
  let a := NdArray [1; 1; 3] [0; 2; 1]%Q in
  d !! "label_meta_dict"%string = Some (PDict 0) ∧
  d !! "image_meta_dict"%string = Some (PDict 0) ∧
  h !! 0 = Some Samples.image_meta ∧
  d !! "label"%string = Some (PArray a) ∧ np_max (data a) = Some 2%Q ∧ (1 < 2)%Q ∧
  4 < length (SingleLabelSingleModalityd.pixdim Samples.image_meta) ∧
  4 < length (SingleLabelSingleModalityd.dim Samples.image_meta) ∧
  ∃ d1 h1,
    SingleLabelSingleModalityd.call ["label"; "image"]%string d h = Some (d1, h1) ∧
    d1 !! "image"%string = d !! "image"%string ∧
    d1 !! "label"%string = Some (PArray (SingleLabelSingleModalityd.foreground a)) ∧
    ∃ m1, h1 !! 0 = Some m1 ∧
          SingleLabelSingleModalityd.pixdim m1 !! 4 = Some 0%Q.
Proof.
  intros d h a.
  assert (H1 : d !! "label_meta_dict"%string = Some (PDict 0))
    by (vm_compute; reflexivity).
  assert (H2 : d !! "image_meta_dict"%string = Some (PDict 0))
    by (vm_compute; reflexivity).
  assert (H3 : h !! 0 = Some Samples.image_meta) by (vm_compute; reflexivity).
  assert (H4 : d !! "label"%string = Some (PArray a)) by (vm_compute; reflexivity).
  assert (H5 : np_max (data a) = Some 2%Q) by reflexivity.
  assert (H6 : (1 < 2)%Q) by reflexivity.
  assert (H7 : 4 < length (SingleLabelSingleModalityd.pixdim Samples.image_meta))
    by (simpl; lia).
  assert (H8 : 4 < length (SingleLabelSingleModalityd.dim Samples.image_meta))
    by (simpl; lia).
  split; [exact H1|]. split; [exact H2|]. split; [exact H3|]. split; [exact H4|].
  split; [exact H5|]. split; [exact H6|]. split; [exact H7|]. split; [exact H8|].
  exact (shared_metadata_hides_the_modalities d h 0 Samples.image_meta a 2%Q
           H1 H2 H3 H4 H5 H6 H7 H8).
Defined.

Section single_frame.
Import SingleLabelSingleModalityd.

Lemma patch_filename (m m' : meta_dict) :
  patch m = Some m' → filename_or_obj m' = filename_or_obj m.
Proof.
  unfold patch. intros Hp.
  destruct (set_index (pixdim m) 4 0%Q); [simpl in Hp|discriminate].
  destruct (set_index (dim m) 0 3%Z) as [dim'|]; [simpl in Hp|discriminate].
  destruct (set_index dim' 4 1%Z); [simpl in Hp|discriminate].
  by injection Hp as <-.
Qed.

Lemma get_meta_inv (d : record) (h : heap) (k : string) l m :
  get_meta d h k = Some (l, m) → d !! k = Some (PDict l) ∧ h !! l = Some m.
Proof.
  unfold get_meta. intros Hg.
  destruct (d !! k) as [[| | | | |l']|]; try discriminate. simpl in Hg.
  destruct (h !! l') eqn:E; [|discriminate]. simpl in Hg.
  by injection Hg as <- <-.
Qed.

Lemma label_branch_frame (key : string) (s s' : record * heap) :
  label_branch key s = Some s' → branch_frame key "label_meta_dict" s s'.
Proof.
  destruct s as [d h]. unfold label_branch. intros Hb.
  destruct (get_meta d h "label_meta_dict") as [[l m]|] eqn:Hg; [|discriminate].
  simpl in Hb. apply get_meta_inv in Hg as [Hd Hl].
  destruct (get_array d key) as [a|]; [simpl in Hb|discriminate].
  destruct (np_max (data a)) as [mx|]; [simpl in Hb|discriminate].
  destruct (Qgt1 mx); [|left; congruence].
  destruct (patch m) as [m'|] eqn:Hp; [simpl in Hb|discriminate].
  right. exists (PArray (foreground a)), l, m, m'.
  split; [done|]. split; [done|]. split; [by apply patch_filename|].
  simpl. by injection Hb as <-.
Qed.

Lemma image_branch_frame (key : string) (s s' : record * heap) :
  image_branch key s = Some s' → branch_frame key "image_meta_dict" s s'.
Proof.
  destruct s as [d h]. unfold image_branch. intros Hb.
  destruct (get_meta d h "image_meta_dict") as [[l m]|] eqn:Hg; [|discriminate].
  simpl in Hb. apply get_meta_inv in Hg as [Hd Hl].
  destruct (pixdim m !! 4) as [p4|]; [simpl in Hb|discriminate].
  destruct (Qpositive p4); [|left; congruence].
  destruct (get_array d key) as [a|]; [simpl in Hb|discriminate].
  destruct (take_last0 a) as [a'|]; [simpl in Hb|discriminate].
  destruct (patch m) as [m'|] eqn:Hp; [simpl in Hb|discriminate].
  right. exists (PArray a'), l, m, m'.
  split; [done|]. split; [done|]. split; [by apply patch_filename|].
  simpl. by injection Hb as <-.
Qed.

Lemma frame_refl (s : record * heap) : frame s s.
Proof.
  split; [done|]. split; [done|]. split; [done|]. intros l m' Hl. by exists m'.
Qed.

Lemma frame_trans (s1 s2 s3 : record * heap) :
  frame s1 s2 → frame s2 s3 → frame s1 s3.
Proof.
  intros (A1 & A2 & A3 & A4) (B1 & B2 & B3 & B4).
  split; [|split; [|split]].
  - intros k Hl Hi. rewrite B1, A1; done.
  - intros k. by rewrite B2, A2.
  - intros l Hl Hi. rewrite B3, A3; [done..| |]; rewrite A1; done.
  - intros l m3 H3. destruct (B4 l m3 H3) as (m2 & H2 & E2).
    destruct (A4 l m2 H2) as (m1 & H1 & E1). exists m1. split; [done|]. congruence.
Qed.

Lemma branch_frame_frame (key meta : string) (s s' : record * heap) :
  (key = "label"%string ∨ key = "image"%string) →
  (meta = "label_meta_dict"%string ∨ meta = "image_meta_dict"%string) →
  is_Some (s.1 !! key) →
  branch_frame key meta s s' → frame s s'.
Proof.
  intros Hkey Hmeta Hsome [->|(v & l & m & m' & Hd & Hl & Hf & ->)];
    [apply frame_refl|].
  destruct s as [d h]. simpl in *.
  split; [|split; [|split]]; simpl.
  - intros k Hkl Hki. rewrite lookup_insert_ne; [done|]. by destruct Hkey as [->| ->].
  - intros k. destruct (decide (key = k)) as [->|Hne].
    + rewrite lookup_insert_eq. split; [done|]. by eexists.
    + by rewrite lookup_insert_ne.
  - intros l' Hl1 Hl2. rewrite lookup_insert_ne; [done|]. intros ->.
    destruct Hmeta as [->| ->]; congruence.
  - intros l' m1. destruct (decide (l = l')) as [->|Hne].
    + rewrite lookup_insert_eq. intros [= <-]. by exists m.
    + rewrite lookup_insert_ne by done. intros Hl'. by exists m1.
Qed.

Lemma get_array_is_Some (d : record) (key : string) a :
  get_array d key = Some a → is_Some (d !! key).
Proof.
  unfold get_array. destruct (d !! key); [by eexists|discriminate].
Qed.

Lemma label_branch_is_frame (s s' : record * heap) :
  label_branch "label" s = Some s' → frame s s'.
Proof.
  intros Hb.
  apply (branch_frame_frame "label" "label_meta_dict"); [by left|by left| |
    by apply label_branch_frame].
  destruct s as [d h]. unfold label_branch in Hb.
  destruct (get_meta d h "label_meta_dict") as [[l m]|]; [simpl in Hb|discriminate].
  destruct (get_array d "label") as [a|] eqn:Ha; [|discriminate].
  by eapply get_array_is_Some.
Qed.

Lemma image_branch_is_frame (s s' : record * heap) :
  image_branch "image" s = Some s' → frame s s'.
Proof.
  intros Hb.
  pose proof (image_branch_frame _ _ _ Hb) as Hf.
  destruct Hf as [->|Hf]; [apply frame_refl|].
  apply (branch_frame_frame "image" "image_meta_dict"); [by right|by right| |
    by right].
  destruct s as [d h]. unfold image_branch in Hb.
  destruct (get_meta d h "image_meta_dict") as [[l m]|]; [simpl in Hb|discriminate].
  destruct (pixdim m !! 4) as [p4|]; [simpl in Hb|discriminate].
  destruct (Qpositive p4).
  - destruct (get_array d "image") as [a|] eqn:Ha; [|discriminate].
    by eapply get_array_is_Some.
  - injection Hb as <-. destruct Hf as (v & l' & m1 & m' & Hd & Hl & Hfn & Heq).
    simpl in *. injection Heq as Hd' Hh'.
    assert (Hv : (<["image"%string := v]> d) !! "image"%string = Some v)
      by apply lookup_insert_eq.
    rewrite <- Hd' in Hv. by eexists.
Qed.

Lemma step_frame (key : string) (s s' : record * heap) :
  step key s = Some s' → frame s s'.
Proof.
  unfold step. intros Hs.
  destruct (decide (key = "label"%string)) as [->|Hl].
  - destruct (label_branch "label" s) as [s1|] eqn:Hb; [simpl in Hs|discriminate].
    try rewrite decide_False in Hs by done. injection Hs as <-.
    by apply label_branch_is_frame.
  - simpl in Hs. destruct (decide (key = "image"%string)) as [->|Hi].
    + by apply image_branch_is_frame.
    + injection Hs as <-. apply frame_refl.
Qed.

Lemma call_keys_frame (keys : list string) (s s' : record * heap) :
  call_keys keys s = Some s' → frame s s'.
Proof.
  revert s. induction keys as [|key keys IH]; intros s Hc; simpl in Hc.
  - injection Hc as <-. apply frame_refl.
  - destruct (step key s) as [s1|] eqn:Hs; [simpl in Hc|discriminate].
    eapply frame_trans; [by eapply step_frame|by apply IH].
Qed.

End single_frame.

(** X19.  What a run of SingleLabelSingleModalityd leaves alone, with any
    keys: every entry of the record other than "label" and "image" is
    returned as it was, and no entry is added or removed; a metadata
    dictionary that is bound neither to "label_meta_dict" nor to
    "image_meta_dict" is not written; no metadata dictionary is created,
    and [filename_or_obj] is never changed. *)
Theorem single_label_call_frame
    (keys : list string) (d d' : gmap string pyval)
    (h h' : gmap loc SingleLabelSingleModalityd.meta_dict) :
  SingleLabelSingleModalityd.call keys d h = Some (d', h') →
  (∀ k, k ≠ "label"%string → k ≠ "image"%string → d' !! k = d !! k) ∧
  (∀ k, is_Some (d' !! k) ↔ is_Some (d !! k)) ∧
  (∀ l, d !! "label_meta_dict"%string ≠ Some (PDict l) →
        d !! "image_meta_dict"%string ≠ Some (PDict l) → h' !! l = h !! l) ∧
  (∀ l m', h' !! l = Some m' →
     ∃ m, h !! l = Some m ∧
          SingleLabelSingleModalityd.filename_or_obj m'
          = SingleLabelSingleModalityd.filename_or_obj m).
Proof.
  intros Hc. exact (call_keys_frame keys (d, h) (d', h') Hc).
Qed.

Lemma single_label_call_frame_witness :
  let d := Samples.volumes in
  let h := Samples.metadata in
  let d' := Samples.single_volumes in
  let h' := Samples.single_metadata in
  SingleLabelSingleModalityd.call ["label"; "image"]%string d h = Some (d', h') ∧
  (∀ k, k ≠ "label"%string → k ≠ "image"%string → d' !! k = d !! k) ∧
  (∀ k, is_Some (d' !! k) ↔ is_Some (d !! k)) ∧
  (∀ l, d !! "label_meta_dict"%string ≠ Some (PDict l) →
        d !! "image_meta_dict"%string ≠ Some (PDict l) → h' !! l = h !! l) ∧
  (∀ l m', h' !! l = Some m' →
     ∃ m, h !! l = Some m ∧
          SingleLabelSingleModalityd.filename_or_obj m'
          = SingleLabelSingleModalityd.filename_or_obj m).
Proof.
  intros d h d' h'.
  assert (Hc : SingleLabelSingleModalityd.call ["label"; "image"]%string d h
               = Some (d', h')) by (vm_compute; reflexivity).
  split; [exact Hc|].
  exact (single_label_call_frame ["label"; "image"]%string d d' h h' Hc).
Defined.

Section single_missing.
Import SingleLabelSingleModalityd.

Lemma step_needs_metadata (key : string) (s : record * heap) :
  (key = "label"%string ∧ s.1 !! "label_meta_dict"%string = None) ∨
  (key = "image"%string ∧ s.1 !! "image_meta_dict"%string = None) →
  step key s = None.
Proof.
  destruct s as [d h]. simpl. unfold step. intros [[-> Hm]|[-> Hm]].
  - unfold label_branch, get_meta. by rewrite Hm.
  - simpl. unfold image_branch, get_meta. by rewrite Hm.
Qed.

Lemma call_keys_needs_metadata (keys : list string) (s : record * heap) :
  ("label"%string ∈ keys ∧ s.1 !! "label_meta_dict"%string = None) ∨
  ("image"%string ∈ keys ∧ s.1 !! "image_meta_dict"%string = None) →
  call_keys keys s = None.
Proof.
  revert s. induction keys as [|key keys IH]; intros s Hm.
  { destruct Hm as [[Hin _]|[Hin _]]; by apply elem_of_nil in Hin. }
  simpl. destruct (step key s) as [s1|] eqn:Hs; [simpl|done].
  apply IH. pose proof (step_frame _ _ _ Hs) as (Hf & _).
  destruct Hm as [[Hin Hm]|[Hin Hm]].
  - apply elem_of_cons in Hin as [<-|Hin].
    + rewrite step_needs_metadata in Hs; [discriminate|by left].
    + left. split; [done|]. by rewrite Hf.
  - apply elem_of_cons in Hin as [<-|Hin].
    + rewrite step_needs_metadata in Hs; [discriminate|by right].
    + right. split; [done|]. by rewrite Hf.
Qed.

End single_missing.

(** X20.  The metadata is read before anything else: when "label" is
    among the keys and the record has no "label_meta_dict", or "image" is
    among the keys and the record has no "image_meta_dict", the call
    fails (KeyError), whatever the label and the image hold and wherever
    the key stands among the keys. *)
Theorem single_label_needs_the_metadata
    (keys : list string) (d : gmap string pyval)
    (h : gmap loc SingleLabelSingleModalityd.meta_dict) :
  ("label"%string ∈ keys ∧ d !! "label_meta_dict"%string = None) ∨
  ("image"%string ∈ keys ∧ d !! "image_meta_dict"%string = None) →
  SingleLabelSingleModalityd.call keys d h = None.
Proof.
  intros Hm. exact (call_keys_needs_metadata keys (d, h) Hm).
Qed.

Lemma single_label_needs_the_metadata_witness :
  let keys := ["image"; "label"]%string in
  let d := delete "label_meta_dict"%string Samples.single_volumes in
  (("label"%string ∈ keys ∧ d !! "label_meta_dict"%string = None) ∨
   ("image"%string ∈ keys ∧ d !! "image_meta_dict"%string = None)) ∧
  SingleLabelSingleModalityd.call keys d Samples.single_metadata = None.
Proof.
  intros keys d.
  assert (Hm : ("label"%string ∈ keys ∧ d !! "label_meta_dict"%string = None) ∨
               ("image"%string ∈ keys ∧ d !! "image_meta_dict"%string = None)).
  { left. split; [apply elem_of_cons; right; apply elem_of_cons; by left|].
    vm_compute; reflexivity. }
  split; [exact Hm|].
  exact (single_label_needs_the_metadata keys d Samples.single_metadata Hm).
Defined.

(** X21.  On a well-formed mask whose leading axis has size 1, the point
    that [find_guidance] returns still tells which voxel was sampled:
    the voxel with multi-index 0 followed by the components 1, 2, ... of
    the point exists in the mask and has a value above 0.  Overwriting
    component 0 with the distance loses nothing there, since the index
    along an axis of size 1 is 0. *)
Theorem find_guidance_clicks_an_error_voxel `{Collaborators}
    (r r' : rng) (mask : ndarray Q) (weight_map : option (ndarray Q))
    (g : list Q) (s : list nat) :
  choice_sound → wf mask → shape mask = 1 :: s →
  AddRandomGuidanced.find_guidance r mask weight_map = Some (Some g, r') →
  ∃ seed q coords,
    unravel_index seed (shape mask) = 0 :: coords ∧
    tail g = (λ k, inject_Z (Z.of_nat k)) <$> coords ∧
    data mask !! seed = Some q ∧ (0 < q)%Q.
Proof.
  intros Hsound Hwf Hs Hfg.
  apply find_guidance_inv in Hfg as (wd & w & seed & dst & _ & Hch & _ & -> & _).
  apply Hsound, elem_of_where_positive in Hch as (q & Hq & Hpos).
  pose proof (lookup_lt_Some _ _ _ Hq) as Hlt. rewrite Hwf in Hlt.
  pose proof (unravel_index_in_range seed (shape mask) Hlt) as Hr.
  rewrite Hs in *.
  destruct (unravel_index seed (1 :: s)) as [|k coords] eqn:Hun;
    [by apply Forall2_nil_cons_inv in Hr|].
  apply Forall2_cons in Hr as [Hk _].
  exists seed, q, coords. assert (k = 0) as -> by lia.
  split; [done|]. split; [done|]. split; [exact Hq|exact Hpos].
Qed.

Lemma find_guidance_clicks_an_error_voxel_witness :
  choice_sound (H:=Reference.collaborators) ∧ wf Samples.mask ∧
  shape Samples.mask = 1 :: [1; 1; 3] ∧
  AddRandomGuidanced.find_guidance (H:=Reference.collaborators) 1 Samples.mask None
  = Some (Some [2; 0; 0; 2]%Q, 2) ∧
  ∃ seed q coords,
    unravel_index seed (shape Samples.mask) = 0 :: coords ∧
    tail [2; 0; 0; 2]%Q = (λ k, inject_Z (Z.of_nat k)) <$> coords ∧
    data Samples.mask !! seed = Some q ∧ (0 < q)%Q.
Proof.
  assert (Hwf : wf Samples.mask) by reflexivity.
  assert (Hs : shape Samples.mask = 1 :: [1; 1; 3]) by reflexivity.
  assert (E : AddRandomGuidanced.find_guidance (H:=Reference.collaborators)
                1 Samples.mask None = Some (Some [2; 0; 0; 2]%Q, 2)) by reflexivity.
  split; [exact pick_sound|]. split; [exact Hwf|]. split; [exact Hs|].
  split; [exact E|].
  exact (find_guidance_clicks_an_error_voxel (H:=Reference.collaborators)
           1 2 Samples.mask None _ [1; 1; 3] pick_sound Hwf Hs E).
Defined.
